(** * supportbot: the ticket workflow of [index.js]

    A shallow embedding of the ticket bot: its naming helpers, the
    [tickets] table, the transcript builder and the interaction handlers,
    followed by the properties of the specification that they decide. *)

From stdpp Require Import base numbers list strings pretty gmap.

(** ** JavaScript strings

    A JavaScript string is a sequence of UTF-16 code units; the regular
    expressions of [normalizeForName] (no [u] flag) and [trim] inspect it one
    code unit at a time, so that is what a string is here. *)

Abbreviation jsstring := (list N).

(** An ASCII literal of the source, as code units. *)
Definition js (s : string) : jsstring :=
  Ascii.N_of_ascii <$> String.list_ascii_of_string s.

(** [if (s)] on a string: the empty string is the only falsy one. *)
Definition truthy (s : jsstring) : bool :=
  match s with [] => false | _ :: _ => true end.

(** [if (x)] on a value that is a string or [null]. *)
Definition truthyOpt (o : option jsstring) : bool :=
  match o with Some s => truthy s | None => false end.

(** [a || b] on strings. *)
Definition orElse (a b : jsstring) : jsstring := if truthy a then a else b.

(** [String(n)] for a non-negative integer. *)
Definition String_of_N (n : N) : jsstring := js (pretty n).

Definition isLower (c : N) : bool := ((97 <=? c) && (c <=? 122))%N.
Definition isUpper (c : N) : bool := ((65 <=? c) && (c <=? 90))%N.
Definition isDigit (c : N) : bool := ((48 <=? c) && (c <=? 57))%N.

(** The class [\s], which is also what [trim] removes: WhiteSpace and
    LineTerminator of ECMAScript. *)
Definition isWhiteSpace (c : N) : bool :=
  ((9 <=? c) && (c <=? 13) || (c =? 32) || (c =? 160) || (c =? 0x1680)
   || (0x2000 <=? c) && (c <=? 0x200a) || (c =? 0x2028) || (c =? 0x2029)
   || (c =? 0x202f) || (c =? 0x205f) || (c =? 0x3000) || (c =? 0xfeff))%N.

Definition dash : N := 45%N.
Definition underscore : N := 95%N.
Definition newline : N := 10%N.

(** [String.prototype.toLowerCase], one code unit at a time.  The ASCII
    capitals and the two code points outside ASCII whose lower case contains
    an ASCII letter (U+0130 and the Kelvin sign U+212A) are tabulated.  Every
    other case pair of Unicode has both members outside ASCII and outside [\s],
    and is left as it is: the [replace] that follows in [normalizeForName]
    removes either member. *)
Definition lowerUnit (c : N) : jsstring :=
  if isUpper c then [(c + 32)%N]
  else if (c =? 0x130)%N then [105%N; 0x307%N]
  else if (c =? 0x212a)%N then [107%N]
  else [c].

Definition toLowerCase (s : jsstring) : jsstring := s ≫= lowerUnit.

(** The complement of the class [[^a-z0-9\s-_]]: with a class escape on its
    left the [-] is a literal dash, so the class keeps letters, digits, white
    space, the dash and the underscore. *)
Definition keptByStrip (c : N) : bool :=
  isLower c || isDigit c || isWhiteSpace c || (c =? dash)%N || (c =? underscore)%N.

(** [.replace(/[^a-z0-9\s-_]/g, '')] *)
Definition stripSpecial (s : jsstring) : jsstring :=
  List.filter keptByStrip s.

Fixpoint dropSpace (s : jsstring) : jsstring :=
  match s with
  | [] => []
  | c :: s' => if isWhiteSpace c then dropSpace s' else s
  end.

(** [.trim()] *)
Definition trim (s : jsstring) : jsstring :=
  reverse (dropSpace (reverse (dropSpace s))).

(** [.replace(/\s+/g, '-')]: [inRun] tells that the previous code unit was
    white space, whose run has already been replaced. *)
Fixpoint dashRuns (inRun : bool) (s : jsstring) : jsstring :=
  match s with
  | [] => []
  | c :: s' =>
      if isWhiteSpace c
      then (if inRun then dashRuns true s' else dash :: dashRuns true s')
      else c :: dashRuns false s'
  end.

(** [normalizeForName] ([index.js], helpers). *)
Definition normalizeForName (s : jsstring) : jsstring :=
  if negb (truthy s) then []
  else dashRuns false (trim (stripSpecial (toLowerCase s))).

(** The characters the specification allows in a slug. *)
Definition specSlugChar (c : N) : Prop :=
  isLower c ∨ isDigit c ∨ c = dash.

(** The characters a slug is made of. *)
Definition slugChar (c : N) : Prop :=
  isLower c ∨ isDigit c ∨ c = dash ∨ c = underscore.

(** [s.split(sep)] for a one-character separator. *)
Fixpoint split (sep : N) (s : jsstring) : list jsstring :=
  match s with
  | [] => [[]]
  | c :: s' =>
      if (c =? sep)%N then [] :: split sep s'
      else match split sep s' with
           | p :: ps => (c :: p) :: ps
           | [] => [[c]]
           end
  end.

(** The value of the longest prefix of decimal digits, [None] when there is
    no digit at the front. *)
Fixpoint digitsPrefix (acc : option N) (s : jsstring) : option N :=
  match s with
  | [] => acc
  | c :: s' =>
      if isDigit c
      then digitsPrefix (Some (10 * default 0 acc + (c - 48))%N) s'
      else acc
  end.

(** [parseInt(s, 10)]; [None] is [NaN]. *)
Definition parseInt (s : jsstring) : option Z :=
  match dropSpace s with
  | [] => None
  | c :: s' =>
      if (c =? dash)%N then (λ n, - Z.of_N n)%Z <$> digitsPrefix None s'
      else if (c =? 43)%N then Z.of_N <$> digitsPrefix None s'
      else Z.of_N <$> digitsPrefix None (c :: s')
  end.

(** [Number(idStr)] on the identifiers that [buildTicketControlRow] writes,
    which are plain decimal numerals; [None] stands for a number that is no
    row id (the other spellings that [Number] accepts are not tabulated). *)
Definition toNumber (s : jsstring) : option N :=
  if forallb isDigit s then digitsPrefix None s else None.

(** ** The catalog *)

Definition CATEGORIES : list jsstring :=
  [ js "Unban Aanvraag Anti Cheat";
    js "Unban Aanvraag Discord";
    js "Unban Aanvraag Ingame";
    js "Klachten Over Spelers";
    js "Klachten Over Staff";
    js "Ingame Refunds";
    js "Pc Checks";
    js "Overige Vragen";
    js "Content Creator Co" ++ 246%N :: js "rdinator";
    js "Hulpdiensten Co" ++ 246%N :: js "rdinator";
    js "Onderwereld Co" ++ 246%N :: js "rdinator";
    js "Development";
    js "Car Development";
    js "Headstaff";
    js "Bestuur";
    js "Staff Sollicitatie's";
    js "Donaties" ].

(** [CATEGORIES[categoryIndex]]; [None] is [undefined]. *)
Definition categoryAt (categoryIndex : option Z) : option jsstring :=
  match categoryIndex with
  | Some i => if (0 <=? i)%Z then CATEGORIES !! Z.to_nat i else None
  | None => None
  end.

(** [CATEGORIES[categoryIndex] || 'Overige Vragen'] *)
Definition categoryNameOf (categoryIndex : option Z) : jsstring :=
  match categoryAt categoryIndex with
  | Some c => orElse c (js "Overige Vragen")
  | None => js "Overige Vragen"
  end.

(** ** Data model *)

(** A row of the table [tickets]. *)
Record Row := mkRow {
  ticket_id : N;
  guild_id : jsstring;
  channel_id : jsstring;
  owner_id : jsstring;
  claimed_by : option jsstring;
  status : jsstring;
  category : option jsstring;
  topic : option jsstring;
  created_at : N
}.

Definition set_claimed_by (v : option jsstring) (r : Row) : Row :=
  mkRow (ticket_id r) (guild_id r) (channel_id r) (owner_id r) v
        (status r) (category r) (topic r) (created_at r).

Definition set_status (v : jsstring) (r : Row) : Row :=
  mkRow (ticket_id r) (guild_id r) (channel_id r) (owner_id r) (claimed_by r)
        v (category r) (topic r) (created_at r).

Inductive ChannelType := GuildText | GuildCategory.

Inductive Permission := ViewChannel | SendMessages | ReadMessageHistory.

Record Overwrite := mkOverwrite {
  ow_id : jsstring;
  ow_allow : list Permission;
  ow_deny : list Permission
}.

(** A channel of the guild, as [guild.channels.cache] holds it. *)
Record Channel := mkChannel {
  ch_id : jsstring;
  ch_name : jsstring;
  ch_type : ChannelType;
  ch_parent : option jsstring;
  ch_overwrites : list Overwrite
}.

Record Role := mkRole { role_id : jsstring; role_name : jsstring }.

Record User := mkUser {
  u_id : jsstring;
  u_username : jsstring;
  u_tag : jsstring
}.

(** A guild member: [m_admin] is [permissions.has(Administrator)],
    [m_roles] the names of the roles in [roles.cache]. *)
Record Member := mkMember {
  m_id : jsstring;
  m_admin : bool;
  m_roles : list jsstring;
  m_nickname : option jsstring
}.

(** A message of a channel: [msg_author] is [author?.tag], [msg_createdAt]
    the creation date in milliseconds, [msg_attachments] the urls. *)
Record Message := mkMessage {
  msg_id : jsstring;
  msg_createdAt : N;
  msg_author : option jsstring;
  msg_content : jsstring;
  msg_attachments : list jsstring
}.

Inductive EmbedKind := Info | Success | Error | Action.

Record Embed := mkEmbed {
  e_kind : EmbedKind;
  e_title : jsstring;
  e_description : jsstring;
  e_footer : option jsstring
}.

Definition embedInfo (title desc : jsstring) : Embed := mkEmbed Info title desc None.
Definition embedSuccess (title desc : jsstring) : Embed := mkEmbed Success title desc None.
Definition embedError (title desc : jsstring) : Embed := mkEmbed Error title desc None.
Definition embedAction (title desc : jsstring) : Embed := mkEmbed Action title desc None.

(** What a message send carries: text, one embed, the custom ids of the
    buttons, an attached file. *)
Record Payload := mkPayload {
  p_content : jsstring;
  p_embed : Embed;
  p_components : list jsstring;
  p_file : option jsstring
}.

Definition embeds (e : Embed) : Payload := mkPayload [] e [] None.
Definition embedsFile (e : Embed) (file : jsstring) : Payload :=
  mkPayload [] e [] (Some file).

(** The callbacks handed to [setTimeout]; each closes over the row read by
    the handler that armed it. *)
Inductive Task :=
| CloseButtonTask (ticketRow : Row) (ticketId : N)
| CloseCommandTask (ticketRow : Row).

(** What a handler does to the outside, in the order it does it: statements
    on the table, calls of the platform client, files written, timers armed. *)
Inductive Event :=
| DbInsert (r : Row)
| DbSetClaim (id : N) (v : option jsstring)
| DbSetStatus (id : N) (s : jsstring)
| ShowModal (customId : jsstring)
| Reply (p : Payload)
| DeferReply
| EditReply (p : Payload)
| FollowUp (p : Payload)
| ChannelSend (channel : jsstring) (p : Payload)
| UserSend (user : jsstring) (p : Payload)
| ChannelCreate (name : jsstring) (type : ChannelType) (parent : option jsstring)
| OverwriteCreate (channel : jsstring) (target : jsstring)
| ChannelDelete (channel : jsstring)
| MessagesFetch (channel : jsstring) (limit : N) (before : option jsstring)
| WriteFile (path : jsstring)
| SetTimeout (t : Task) (ms : N).

(** The interactions the dispatcher is embedded for.  The select menu is
    built with one value to pick, [chosen] is [values[0]]. *)
Inductive Interaction :=
| StringSelectMenu (customId : jsstring) (user : User) (chosen : jsstring)
| ModalSubmit (customId : jsstring) (user : User) (topic_input : jsstring)
| ButtonPress (customId : jsstring) (user : User) (member : option Member)
| ChatInputCommand (commandName : jsstring) (user : User)
    (member : option Member) (channelOption : option Channel) (channel : Channel).

(** The process and what it holds on to: the table and its row counter, the
    pending choices, the channel cache of the guild, the local files, the
    armed timers; [log] is the history of effects, [replied] and [deferred]
    belong to the interaction being handled. *)
Record World := mkWorld {
  db : list Row;
  db_seq : N;
  pendingCategoryForUser : gmap (list N) (list N);
  cache : list Channel;
  dirs : gset (list N);
  files : gmap (list N) (list N);
  timers : list Task;
  replied : bool;
  deferred : bool;
  log : list Event
}.

(** The configuration and the collaborators: the environment variables, the
    guild, and how the platform answers.  [succeeds] tells which calls
    resolve; [fetchMember] and [fetchChannel] are the fetches followed by
    [.catch(() => null)]; [fetchMessages] is [channel.messages.fetch], [None]
    when it rejects; [newChannelId] names the channel a create call returns. *)
Record Env := mkEnv {
  STAFF_ROLE_NAME : jsstring;
  STAFF_LOG_CHANNEL_ID : option jsstring;
  dirname : jsstring;
  guildId : jsstring;
  everyoneId : jsstring;
  roles : list Role;
  succeeds : Event → bool;
  fetchMember : jsstring → option Member;
  fetchChannel : jsstring → option Channel;
  fetchMessages : jsstring → N → option jsstring → option (list Message);
  newChannelId : nat → jsstring;
  toISOString : N → jsstring;
  now : N;
  fuel : nat
}.

(** ** The table *)

Definition selectById (id : N) (rows : list Row) : option Row :=
  List.find (λ r, (ticket_id r =? id)%N) rows.

Definition selectByChannel (channelId : jsstring) (rows : list Row) : option Row :=
  List.find (λ r, bool_decide (channel_id r = channelId)) rows.

(** [UPDATE tickets SET ... WHERE id = ?] *)
Definition updateWhereId (id : N) (f : Row → Row) (rows : list Row) : list Row :=
  (λ r, if (ticket_id r =? id)%N then f r else r) <$> rows.

(** ** Field updates of the world *)

Definition with_db (v : list Row) (w : World) : World :=
  mkWorld v (db_seq w) (pendingCategoryForUser w) (cache w) (dirs w) (files w)
          (timers w) (replied w) (deferred w) (log w).
Definition with_db_seq (v : N) (w : World) : World :=
  mkWorld (db w) v (pendingCategoryForUser w) (cache w) (dirs w) (files w)
          (timers w) (replied w) (deferred w) (log w).
Definition with_pending (v : gmap (list N) (list N)) (w : World) : World :=
  mkWorld (db w) (db_seq w) v (cache w) (dirs w) (files w)
          (timers w) (replied w) (deferred w) (log w).
Definition with_cache (v : list Channel) (w : World) : World :=
  mkWorld (db w) (db_seq w) (pendingCategoryForUser w) v (dirs w) (files w)
          (timers w) (replied w) (deferred w) (log w).
Definition with_dirs (v : gset (list N)) (w : World) : World :=
  mkWorld (db w) (db_seq w) (pendingCategoryForUser w) (cache w) v (files w)
          (timers w) (replied w) (deferred w) (log w).
Definition with_files (v : gmap (list N) (list N)) (w : World) : World :=
  mkWorld (db w) (db_seq w) (pendingCategoryForUser w) (cache w) (dirs w) v
          (timers w) (replied w) (deferred w) (log w).
Definition with_timers (v : list Task) (w : World) : World :=
  mkWorld (db w) (db_seq w) (pendingCategoryForUser w) (cache w) (dirs w) (files w)
          v (replied w) (deferred w) (log w).
Definition with_replied (v : bool) (w : World) : World :=
  mkWorld (db w) (db_seq w) (pendingCategoryForUser w) (cache w) (dirs w) (files w)
          (timers w) v (deferred w) (log w).
Definition with_deferred (v : bool) (w : World) : World :=
  mkWorld (db w) (db_seq w) (pendingCategoryForUser w) (cache w) (dirs w) (files w)
          (timers w) (replied w) v (log w).
Definition with_log (v : list Event) (w : World) : World :=
  mkWorld (db w) (db_seq w) (pendingCategoryForUser w) (cache w) (dirs w) (files w)
          (timers w) (replied w) (deferred w) v.

(** ** The effect monad

    A handler is a function of the world that returns normally, throws, or
    runs out of the fuel given to its loops. *)

Inductive Res (A : Type) :=
| Ret (a : A)
| Throw
| Diverge.
Arguments Ret {A} a.
Arguments Throw {A}.
Arguments Diverge {A}.

Definition M (A : Type) : Type := World → Res A * World.

Definition ret {A} (a : A) : M A := λ w, (Ret a, w).

Definition bind {A B} (m : M A) (k : A → M B) : M B :=
  λ w, match m w with
       | (Ret a, w') => k a w'
       | (Throw, w') => (Throw, w')
       | (Diverge, w') => (Diverge, w')
       end.

Definition throw {A} : M A := λ w, (Throw, w).
Definition diverge {A} : M A := λ w, (Diverge, w).

(** [try { m } catch { h }] *)
Definition tryCatch {A} (m : M A) (h : M A) : M A :=
  λ w, match m w with
       | (Throw, w') => h w'
       | r => r
       end.

(** [m.catch(() => {})] *)
Definition swallow (m : M unit) : M unit := tryCatch m (ret tt).

Definition get : M World := λ w, (Ret w, w).
Definition modify (f : World → World) : M unit := λ w, (Ret tt, f w).
Definition emit (e : Event) : M unit := modify (λ w, with_log (log w ++ [e]) w).

Declare Scope js_scope.
Delimit Scope js_scope with js.
Notation "x <- m ;; k" := (bind m (λ x, k))
  (at level 100, m at next level, right associativity) : js_scope.
Notation "m ;;; k" := (bind m (λ _, k))
  (at level 100, right associativity) : js_scope.
Open Scope js_scope.

Definition when (b : bool) (m : M unit) : M unit := if b then m else ret tt.

Section Bot.
Context (env : Env).

(** *** Helpers *)

(** [isStaff] *)
Definition isStaff (member : option Member) : bool :=
  match member with
  | None => false
  | Some m =>
      if m_admin m then true
      else existsb (λ r, bool_decide (r = STAFF_ROLE_NAME env)) (m_roles m)
  end.

(** [member.id], a [TypeError] when the member is [null]. *)
Definition memberId (member : option Member) : M jsstring :=
  match member with
  | Some m => ret (m_id m)
  | None => throw
  end.

(** A call of the platform client: it is attempted, and it resolves or
    rejects as the platform decides. *)
Definition call (e : Event) : M unit :=
  emit e ;;; if succeeds env e then ret tt else throw.

(** *** The platform client *)

Definition reply (p : Payload) : M unit :=
  w <- get ;;
  if replied w || deferred w then throw
  else call (Reply p) ;;; modify (with_replied true).

Definition deferReply : M unit :=
  w <- get ;;
  if replied w || deferred w then throw
  else call DeferReply ;;; modify (with_deferred true).

Definition editReply (p : Payload) : M unit :=
  w <- get ;;
  if replied w || deferred w
  then call (EditReply p) ;;; modify (with_replied true)
  else throw.

Definition followUp (p : Payload) : M unit :=
  w <- get ;;
  if replied w || deferred w then call (FollowUp p) else throw.

Definition showModal (customId : jsstring) : M unit :=
  w <- get ;;
  if replied w || deferred w then throw else call (ShowModal customId).

Definition channelSend (channel : Channel) (p : Payload) : M unit :=
  call (ChannelSend (ch_id channel) p).

Definition userSend (userId : jsstring) (p : Payload) : M unit :=
  call (UserSend userId p).

(** [guild.channels.cache.get(id)] *)
Definition cacheGet (id : jsstring) : M (option Channel) :=
  w <- get ;; ret (List.find (λ c, bool_decide (ch_id c = id)) (cache w)).

(** [guild.channels.create(...)]: the channel made enters the cache. *)
Definition channelsCreate (name : jsstring) (type : ChannelType)
    (parent : option jsstring) (overwrites : list Overwrite) : M Channel :=
  w <- get ;;
  let created := mkChannel (newChannelId env (length (log w))) name type parent overwrites in
  call (ChannelCreate name type parent) ;;;
  modify (λ w, with_cache (cache w ++ [created]) w) ;;;
  ret created.

(** [channel.permissionOverwrites.create(target, {ViewChannel, SendMessages,
    ReadMessageHistory})] *)
Definition overwriteCreate (channel : Channel) (target : jsstring) : M unit :=
  call (OverwriteCreate (ch_id channel) target) ;;;
  modify (λ w, with_cache
    ((λ c, if bool_decide (ch_id c = ch_id channel)
           then mkChannel (ch_id c) (ch_name c) (ch_type c) (ch_parent c)
                  (ch_overwrites c ++
                   [mkOverwrite target [ViewChannel; SendMessages; ReadMessageHistory] []])
           else c) <$> cache w) w).

(** [channel.delete(reason)]: a deleted channel leaves the cache. *)
Definition channelDelete (channel : Channel) : M unit :=
  call (ChannelDelete (ch_id channel)) ;;;
  modify (λ w, with_cache
    (List.filter (λ c, negb (bool_decide (ch_id c = ch_id channel))) (cache w)) w).

(** [channel.messages.fetch({ limit, before })] *)
Definition messagesFetch (channel : Channel) (limit : N)
    (before : option jsstring) : M (list Message) :=
  emit (MessagesFetch (ch_id channel) limit before) ;;;
  match fetchMessages env (ch_id channel) limit before with
  | Some page => ret page
  | None => throw
  end.

(** [guild.channels.cache.get(STAFF_LOG_CHANNEL_ID) ||
     await guild.channels.fetch(STAFF_LOG_CHANNEL_ID).catch(() => null)] *)
Definition getLogChannel (logId : jsstring) : M (option Channel) :=
  c <- cacheGet logId ;;
  match c with
  | Some c => ret (Some c)
  | None => ret (fetchChannel env logId)
  end.

(** [setTimeout(callback, ms)] *)
Definition setTimeout (t : Task) (ms : N) : M unit :=
  modify (λ w, with_timers (timers w ++ [t]) w) ;;; emit (SetTimeout t ms).

(** *** Persistence *)

(** [topic || null] *)
Definition orNull (o : option jsstring) : option jsstring :=
  if truthyOpt o then o else None.

(** [insertTicketRow] *)
Definition insertTicketRow (guildId channelId ownerId cat : jsstring)
    (topic : option jsstring) : M N :=
  w <- get ;;
  let id := (db_seq w + 1)%N in
  let r := mkRow id guildId channelId ownerId None (js "open") (Some cat)
                 (orNull topic) (now env) in
  modify (λ w, with_db (db w ++ [r]) (with_db_seq id w)) ;;;
  emit (DbInsert r) ;;;
  ret id.

(** [getTicketById] *)
Definition getTicketById (id : N) : M (option Row) :=
  w <- get ;; ret (selectById id (db w)).

(** [getTicketByChannel] *)
Definition getTicketByChannel (channelId : jsstring) : M (option Row) :=
  w <- get ;; ret (selectByChannel channelId (db w)).

(** [updateTicketClaim] *)
Definition updateTicketClaim (id : N) (userId : jsstring) : M unit :=
  modify (λ w, with_db (updateWhereId id (set_claimed_by (Some userId)) (db w)) w) ;;;
  emit (DbSetClaim id (Some userId)).

(** [unclaimTicket] *)
Definition unclaimTicket (id : N) : M unit :=
  modify (λ w, with_db (updateWhereId id (set_claimed_by None) (db w)) w) ;;;
  emit (DbSetClaim id None).

(** [closeTicketRow] *)
Definition closeTicketRow (id : N) : M unit :=
  modify (λ w, with_db (updateWhereId id (set_status (js "closed")) (db w)) w) ;;;
  emit (DbSetStatus id (js "closed")).

(** *** UI builders *)

(** The custom ids of [buildTicketControlRow]. *)
Definition buildTicketControlRow (ticketId : N) : list jsstring :=
  [ js "claim_" ++ String_of_N ticketId;
    js "unclaim_" ++ String_of_N ticketId;
    js "close_" ++ String_of_N ticketId;
    js "transcript_" ++ String_of_N ticketId ].

(** [<@id>] *)
Definition mention (id : jsstring) : jsstring := js "<@" ++ id ++ js ">".

(** A message for the staff log, when one is configured and found; its
    failure is ignored. *)
Definition sendToStaffLog (p : Payload) : M unit :=
  if truthyOpt (STAFF_LOG_CHANNEL_ID env)
  then
    logCh <- getLogChannel (default [] (STAFF_LOG_CHANNEL_ID env)) ;;
    match logCh with
    | Some logCh => swallow (channelSend logCh p)
    | None => ret tt
    end
  else ret tt.

(** *** Ticket creation flow *)

Definition isCategoryNamed (name : jsstring) (c : Channel) : bool :=
  match ch_type c with
  | GuildCategory => bool_decide (ch_name c = name)
  | GuildText => false
  end.

(** [getOrCreateCategoryByName]; [None] is [null]. *)
Definition getOrCreateCategoryByName (name : jsstring) : M (option Channel) :=
  w <- get ;;
  match List.find (isCategoryNamed name) (cache w) with
  | Some c => ret (Some c)
  | None =>
      tryCatch (c <- channelsCreate name GuildCategory None [] ;; ret (Some c))
               (ret None)
  end.

(** The loop that makes the channel name unique: [names] are the names in
    [guild.channels.cache], [n] bounds the number of tests of the condition. *)
Fixpoint uniqueNameLoop (n : nat) (names : list jsstring)
    (channelBase channelName : jsstring) (suffix : N) : option jsstring :=
  match n with
  | O => None
  | S n' =>
      if bool_decide (channelName ∈ names)
      then uniqueNameLoop n' names channelBase
             (channelBase ++ dash :: String_of_N suffix) (suffix + 1)%N
      else Some channelName
  end.

(** [let channelName = channelBase; let suffix = 1; while (...) ...] *)
Definition uniqueChannelName (names : list jsstring) (channelBase : jsstring)
  : option jsstring :=
  uniqueNameLoop (S (length names)) names channelBase channelBase 1%N.

(** The name before the uniqueness loop. *)
Definition channelBaseOf (categoryName username nickname : jsstring) : jsstring :=
  let channelBase := normalizeForName categoryName ++ dash :: username in
  if truthy nickname && negb (bool_decide (nickname = username))
  then channelBase ++ dash :: nickname
  else channelBase.

Definition introEmbed (user : User) (categoryName : jsstring)
    (topic : option jsstring) (ticketId : N) : Embed :=
  mkEmbed Info
    (js "Nieuw ticket " ++ 0x2014%N :: js " " ++ categoryName)
    (js "Hallo " ++ mention (u_id user) ++ js ", bedankt! Een teamlid zal je helpen."
     ++ newline :: js "**Onderwerp:** "
     ++ (if truthyOpt topic then default [] topic else js "Niet opgegeven"))
    (Some (js "Ticket ID: " ++ String_of_N ticketId)).

(** [createTicketChannelFromChoice]; [categoryIndex] is the outcome of
    [parseInt], [None] for [NaN]. *)
Definition createTicketChannelFromChoice (user : User)
    (categoryIndex : option Z) (topic : option jsstring) : M (Channel * N) :=
  let categoryName := categoryNameOf categoryIndex in
  parent <- getOrCreateCategoryByName categoryName ;;
  match parent with
  | None => throw
  | Some parent =>
      let username :=
        normalizeForName (orElse (u_username user) (orElse (u_tag user) (js "user"))) in
      let nickname :=
        match fetchMember env (u_id user) with
        | Some member =>
            if truthyOpt (m_nickname member)
            then normalizeForName (default [] (m_nickname member))
            else []
        | None => []
        end in
      let channelBase := channelBaseOf categoryName username nickname in
      w <- get ;;
      match uniqueChannelName (ch_name <$> cache w) channelBase with
      | None => diverge
      | Some channelName =>
          let everyonePerm := mkOverwrite (everyoneId env) [] [ViewChannel] in
          let ownerPerm :=
            mkOverwrite (u_id user) [ViewChannel; SendMessages; ReadMessageHistory] [] in
          created <- channelsCreate channelName GuildText (Some (ch_id parent))
                       [everyonePerm; ownerPerm] ;;
          match List.find (λ r, bool_decide (role_name r = STAFF_ROLE_NAME env)) (roles env) with
          | Some staffRole => swallow (overwriteCreate created (role_id staffRole))
          | None => ret tt
          end ;;;
          ticketId <- insertTicketRow (guildId env) (ch_id created) (u_id user)
                        categoryName (orNull topic) ;;
          channelSend created
            (mkPayload (mention (u_id user))
               (introEmbed user categoryName topic ticketId)
               (buildTicketControlRow ticketId) None) ;;;
          sendToStaffLog (embeds (embedInfo (js "Nieuw ticket geopend")
            (js "Ticket <#" ++ ch_id created ++ js "> geopend door "
             ++ mention (u_id user) ++ js " " ++ 0x2014%N :: js " "
             ++ categoryName))) ;;;
          ret (created, ticketId)
      end
  end.

(** *** Transcript *)

Definition transcriptsDir : jsstring := dirname env ++ js "/transcripts".

(** The [while (true)] loop of [makeTranscript]; [n] bounds the number of
    pages fetched. *)
Fixpoint fetchLoop (n : nat) (channel : Channel) (messages : list Message)
    (lastId : option jsstring) : M (list Message) :=
  match n with
  | O => diverge
  | S n' =>
      let before := if truthyOpt lastId then lastId else None in
      fetched <- messagesFetch channel 100 before ;;
      if (length fetched =? 0)%nat then ret messages
      else
        let messages := messages ++ fetched in
        let lastId := msg_id <$> last fetched in
        if (length fetched <? 100)%nat then ret messages
        else fetchLoop n' channel messages lastId
  end.

(** The paperclip of the attachment line, U+1F4CE as a surrogate pair. *)
Definition paperclip : jsstring := [0xd83d%N; 0xdcce%N].

Definition attachmentLine (url : jsstring) : jsstring :=
  js "    " ++ paperclip ++ js " Attachment: " ++ url ++ [newline].

(** The line of a message: [[time] author: content]. *)
Definition messageLine (msg : Message) : jsstring :=
  let time := toISOString env (msg_createdAt msg) in
  let author := if truthyOpt (msg_author msg) then default [] (msg_author msg)
                else js "Onbekend" in
  let content := orElse (msg_content msg) [] in
  js "[" ++ time ++ js "] " ++ author ++ js ": " ++ content ++ [newline].

(** What one turn of the rendering loop appends to the text. *)
Definition renderMessage (msg : Message) : jsstring :=
  messageLine msg
  ++ (if (0 <? length (msg_attachments msg))%nat
      then foldl (λ text url, text ++ attachmentLine url) [] (msg_attachments msg)
      else []).

Definition transcriptHeader (channel : Channel) : jsstring :=
  js "Transcript van #" ++ ch_name channel ++ [newline; newline].

Definition transcriptPath (channel : Channel) : jsstring :=
  transcriptsDir ++ js "/" ++ ch_id channel ++ js "-transcript.txt".

(** [fs.writeFileSync(path, text, "utf8")] *)
Definition writeFileSync (path text : jsstring) : M unit :=
  modify (λ w, with_files (<[path := text]> (files w)) w) ;;; emit (WriteFile path).

(** [makeTranscript] *)
Definition makeTranscript (channel : Channel) : M jsstring :=
  w <- get ;;
  when (negb (bool_decide (transcriptsDir ∈ dirs w)))
       (modify (λ w, with_dirs ({[transcriptsDir]} ∪ dirs w) w)) ;;;
  messages <- fetchLoop (fuel env) channel [] None ;;
  let messages := reverse messages in
  let transcriptText :=
    foldl (λ text msg, text ++ renderMessage msg) (transcriptHeader channel) messages in
  let filePath := transcriptPath channel in
  writeFileSync filePath transcriptText ;;;
  ret filePath.

(** *** The delayed step of a close *)

(** The callback armed by the Close button. *)
Definition closeButtonCallback (ticketRow : Row) (ticketId : N) : M unit :=
  tryCatch
    (ch <- cacheGet (channel_id ticketRow) ;;
     match ch with
     | None => ret tt
     | Some ch =>
         filepath <- makeTranscript ch ;;
         sendToStaffLog (embedsFile (embedInfo (js "Transcript Ticket")
           (js "Transcript voor " ++ ch_name ch ++ js " (ID:"
            ++ String_of_N (ticket_id ticketRow) ++ js ")")) filepath) ;;;
         tryCatch
           (match fetchMember env (owner_id ticketRow) with
            | Some owner =>
                swallow (userSend (m_id owner) (embedsFile
                  (embedInfo (js "Transcript van je ticket")
                     (js "Hier is de transcript van je ticket " ++ ch_name ch))
                  filepath))
            | None => ret tt
            end)
           (ret tt) ;;;
         swallow (channelDelete ch)
     end)
    (sendToStaffLog (embeds (embedError (js "Fout bij sluiten")
       (js "Fout tijdens sluiten van ticket ID " ++ String_of_N ticketId
        ++ js ". Controleer logs.")))).

(** The callback armed by the [close] command. *)
Definition closeCommandCallback (ticketRow : Row) : M unit :=
  tryCatch
    (ch <- cacheGet (channel_id ticketRow) ;;
     match ch with
     | None => ret tt
     | Some ch =>
         filepath <- makeTranscript ch ;;
         sendToStaffLog (embedsFile (embedInfo (js "Transcript")
           (js "Transcript voor " ++ ch_name ch)) filepath) ;;;
         match fetchMember env (owner_id ticketRow) with
         | Some ownerMember =>
             swallow (userSend (m_id ownerMember) (embedsFile
               (embedInfo (js "Transcript") (js "Transcript voor " ++ ch_name ch))
               filepath))
         | None => ret tt
         end ;;;
         channelDelete ch
     end)
    (ret tt).

Definition runTask (t : Task) : M unit :=
  match t with
  | CloseButtonTask ticketRow ticketId => closeButtonCallback ticketRow ticketId
  | CloseCommandTask ticketRow => closeCommandCallback ticketRow
  end.

(** The event loop fires the oldest armed timer. *)
Definition fireTimer : M unit :=
  w <- get ;;
  match timers w with
  | [] => ret tt
  | t :: ts => modify (with_timers ts) ;;; runTask t
  end.

(** *** Interaction handling *)

(** A reply with [ephemeral: true]; the flag is not kept in the payload. *)
Definition ephemeral (e : Embed) : Payload := embeds e.

(** The select menu [ticket_category_select]. *)
Definition onCategorySelect (user : User) (chosen : jsstring) : M unit :=
  modify (λ w, with_pending (<[u_id user := chosen]> (pendingCategoryForUser w)) w) ;;;
  showModal (js "ticket_topic_modal").

(** What the modal does with the pending choice: the reply is deferred and
    the ticket is created. *)
Definition openTicket (user : User) (chosen topic_input : jsstring) : M unit :=
  deferReply ;;;
  let topic := orNull (Some topic_input) in
  let categoryIndex := parseInt chosen in
  tryCatch
    (r <- createTicketChannelFromChoice user categoryIndex topic ;;
     let channel := r.1 in
     let ticketId := r.2 in
     editReply (embeds (mkEmbed Success (js "Je ticket is geopend")
       (js "Klik hier om naar je ticket te gaan: <#" ++ ch_id channel ++ js ">"
        ++ [newline; newline] ++ js "Link (browser): https://discord.com/channels/"
        ++ guildId env ++ js "/" ++ ch_id channel)
       (Some (js "Ticket ID: " ++ String_of_N ticketId)))))
    (editReply (embeds (embedError (js "Fout bij aanmaken")
       (js "Er is iets misgegaan bij het aanmaken van je ticket. Probeer later opnieuw.")))).

(** The modal [ticket_topic_modal]. *)
Definition onTopicModal (user : User) (topic_input : jsstring) : M unit :=
  let userId := u_id user in
  w <- get ;;
  let chosen := pendingCategoryForUser w !! userId in
  modify (λ w, with_pending (delete userId (pendingCategoryForUser w)) w) ;;;
  if negb (truthyOpt chosen)
  then reply (ephemeral (embedError (js "Fout")
         (js "Categorie niet gevonden of verlopen. Probeer opnieuw.")))
  else openTicket user (default [] chosen) topic_input.

Definition claimedNotice (member : jsstring) : Embed :=
  embedSuccess (js "Ticket geclaimd") (mention member ++ js " heeft dit ticket geclaimd.").

Definition unclaimedNotice (member : jsstring) : Embed :=
  embedAction (js "Ticket geunclaimd")
    (js "Ticket is vrijgegeven door " ++ mention member ++ js ".").

Definition alreadyClaimed (ticketRow : Row) : Embed :=
  embedError (js "Al geclaimd")
    (js "Reeds geclaimd door " ++ mention (default [] (claimed_by ticketRow))).

(** The Claim button, once the row is found. *)
Definition claimButton (ticketId : N) (ticketRow : Row)
    (channelObj : option Channel) (member : option Member) : M unit :=
  if negb (isStaff member)
  then reply (ephemeral (embedError (js "Geen permissie")
         (js "Alleen staff kan tickets claimen")))
  else if truthyOpt (claimed_by ticketRow)
  then reply (ephemeral (alreadyClaimed ticketRow))
  else
    me <- memberId member ;;
    updateTicketClaim ticketId me ;;;
    match channelObj with
    | Some c => swallow (channelSend c (embeds (claimedNotice me)))
    | None => ret tt
    end ;;;
    reply (ephemeral (claimedNotice me)).

(** The Unclaim button. *)
Definition unclaimButton (ticketId : N) (ticketRow : Row)
    (channelObj : option Channel) (member : option Member) : M unit :=
  if negb (isStaff member)
  then reply (ephemeral (embedError (js "Geen permissie")
         (js "Alleen staff kan unclaimen")))
  else if negb (truthyOpt (claimed_by ticketRow))
  then reply (ephemeral (embedError (js "Niet geclaimd")
         (js "Ticket is niet geclaimd")))
  else
    unclaimTicket ticketId ;;;
    me <- memberId member ;;
    match channelObj with
    | Some c => swallow (channelSend c (embeds (unclaimedNotice me)))
    | None => ret tt
    end ;;;
    reply (ephemeral (unclaimedNotice me)).

(** The Close button. *)
Definition closeButton (ticketId : N) (ticketRow : Row)
    (channelObj : option Channel) (member : option Member) : M unit :=
  if negb (isStaff member)
  then reply (ephemeral (embedError (js "Geen permissie")
         (js "Alleen staff kan tickets sluiten")))
  else
    closeTicketRow ticketId ;;;
    match channelObj with
    | Some c =>
        swallow (channelSend c (embeds (embedAction (js "Ticket sluiten")
          (js "Ticket wordt gesloten in 5 seconden. Transcript wordt aangemaakt en verstuurd."))))
    | None => ret tt
    end ;;;
    reply (ephemeral (embedSuccess (js "Sluiten gestart")
      (js "Ticket wordt binnen 5 seconden gesloten en transcript wordt gegenereerd."))) ;;;
    setTimeout (CloseButtonTask ticketRow ticketId) 5000.

(** The Transcript button (manual). *)
Definition transcriptButton (ticketRow : Row) (user : User)
    (member : option Member) : M unit :=
  if negb (isStaff member)
  then reply (ephemeral (embedError (js "Geen permissie")
         (js "Alleen staff kan transcript maken")))
  else
    ch <- cacheGet (channel_id ticketRow) ;;
    match ch with
    | None => reply (ephemeral (embedError (js "Kanaal niet gevonden")
                (js "Ticket kanaal niet gevonden")))
    | Some ch =>
        reply (ephemeral (embedInfo (js "Transcript")
          (js "Transcript wordt gemaakt en verzonden..."))) ;;;
        tryCatch
          (filepath <- makeTranscript ch ;;
           let p := embedsFile (embedInfo (js "Transcript")
                      (js "Transcript voor " ++ ch_name ch)) filepath in
           if truthyOpt (STAFF_LOG_CHANNEL_ID env)
           then sendToStaffLog p
           else tryCatch (userSend (u_id user) p)
                  (swallow (followUp (ephemeral (embedError (js "DM mislukt")
                     (js "Kon DM niet sturen. Transcript is opgeslagen op de server."))))))
          (followUp (ephemeral (embedError (js "Fout")
             (js "Fout bij het maken van transcript"))))
    end.

(** What a button does once its ticket is found: the chain of tests on
    [action]. *)
Definition buttonAction (action : jsstring) (ticketId : N) (ticketRow : Row)
    (channelObj : option Channel) (user : User) (member : option Member) : M unit :=
  if bool_decide (action = js "claim") then
    claimButton ticketId ticketRow channelObj member
  else if bool_decide (action = js "unclaim") then
    unclaimButton ticketId ticketRow channelObj member
  else if bool_decide (action = js "close") then
    closeButton ticketId ticketRow channelObj member
  else if bool_decide (action = js "transcript") then
    transcriptButton ticketRow user member
  else ret tt.

(** A button of a ticket's control row: the custom id is [action_ticketId]. *)
Definition onButton (customId : jsstring) (user : User)
    (member : option Member) : M unit :=
  let parts := split underscore customId in
  let action := default [] (parts !! 0%nat) in
  let idStr := default [] (parts !! 1%nat) in
  if negb (truthy idStr)
  then reply (ephemeral (embedError (js "Ongeldige actie")
         (js "Actie bevat geen ticket id")))
  else
    let notFound := reply (ephemeral (embedError (js "Niet gevonden")
                      (js "Ticket niet gevonden in database"))) in
    match toNumber idStr with
    | None => notFound
    | Some ticketId =>
        ticketRow <- getTicketById ticketId ;;
        match ticketRow with
        | None => notFound
        | Some ticketRow =>
            channelObj <- cacheGet (channel_id ticketRow) ;;
            buttonAction action ticketId ticketRow channelObj user member
        end
    end.

(** The [claim] command, for a staff member. *)
Definition claimCommand (channel : Channel) (ticketRow : Row)
    (member : option Member) : M unit :=
  if truthyOpt (claimed_by ticketRow)
  then reply (ephemeral (alreadyClaimed ticketRow))
  else
    me <- memberId member ;;
    updateTicketClaim (ticket_id ticketRow) me ;;;
    channelSend channel (embeds (claimedNotice me)) ;;;
    reply (ephemeral (embedSuccess (js "Geclaimd")
      (mention me ++ js " heeft het ticket geclaimd."))).

(** The [unclaim] command. *)
Definition unclaimCommand (channel : Channel) (ticketRow : Row)
    (member : option Member) : M unit :=
  if negb (truthyOpt (claimed_by ticketRow))
  then reply (ephemeral (embedError (js "Niet geclaimd")
         (js "Ticket is niet geclaimd.")))
  else
    unclaimTicket (ticket_id ticketRow) ;;;
    me <- memberId member ;;
    channelSend channel (embeds (unclaimedNotice me)) ;;;
    reply (ephemeral (embedSuccess (js "Geunclaimd") (js "Ticket is geunclaimd."))).

(** The [close] command. *)
Definition closeCommand (channel : Channel) (ticketRow : Row) : M unit :=
  closeTicketRow (ticket_id ticketRow) ;;;
  reply (ephemeral (embedAction (js "Sluiten gestart")
    (js "Ticket wordt gesloten en transcript wordt gemaakt (5s)."))) ;;;
  swallow (channelSend channel (embeds (embedAction (js "Ticket sluiten")
    (js "Ticket wordt gesloten in 5 seconden...")))) ;;;
  setTimeout (CloseCommandTask ticketRow) 5000.

(** The [transcript] command (manual). *)
Definition transcriptCommand (user : User) (channel : Channel) : M unit :=
  reply (ephemeral (embedInfo (js "Transcript") (js "Transcript wordt gemaakt..."))) ;;;
  tryCatch
    (filepath <- makeTranscript channel ;;
     let p := embedsFile (embedInfo (js "Transcript")
                (js "Transcript voor " ++ ch_name channel)) filepath in
     if truthyOpt (STAFF_LOG_CHANNEL_ID env)
     then sendToStaffLog p
     else tryCatch (userSend (u_id user) p)
            (swallow (followUp (ephemeral (embedError (js "DM mislukt")
               (js "Kon DM niet sturen; transcript opgeslagen op server"))))))
    (followUp (ephemeral (embedError (js "Fout")
       (js "Fout bij het maken van transcript")))).

(** What a ticket command does for a staff member: the chain of tests on
    the command name. *)
Definition commandAction (name : jsstring) (channel : Channel) (ticketRow : Row)
    (user : User) (member : option Member) : M unit :=
  if bool_decide (name = js "claim") then
    claimCommand channel ticketRow member
  else if bool_decide (name = js "unclaim") then
    unclaimCommand channel ticketRow member
  else if bool_decide (name = js "close") then
    closeCommand channel ticketRow
  else if bool_decide (name = js "transcript") then
    transcriptCommand user channel
  else ret tt.

(** The slash commands [claim], [unclaim], [close] and [transcript]. *)
Definition onTicketCommand (name : jsstring) (user : User)
    (member : option Member) (channelOption : option Channel)
    (here : Channel) : M unit :=
  let channel := default here channelOption in
  ticketRow <- getTicketByChannel (ch_id channel) ;;
  match ticketRow with
  | None => reply (ephemeral (embedError (js "Geen ticket")
              (js "Dit kanaal is geen geregistreerd ticket.")))
  | Some ticketRow =>
      if negb (isStaff member)
      then reply (ephemeral (embedError (js "Geen permissie")
             (js "Alleen staff kan deze actie uitvoeren.")))
      else commandAction name channel ticketRow user member
  end.

Definition ticketCommands : list jsstring :=
  [js "claim"; js "unclaim"; js "close"; js "transcript"].

(** The [catch] of the listener: a generic error, unless the interaction
    has been replied to; its own failure is ignored. *)
Definition genericError : M unit :=
  w <- get ;;
  if replied w then ret tt
  else tryCatch (reply (ephemeral (embedError (js "Error")
         (js "Er is iets misgegaan.")))) (ret tt).

(** The listener of [interactionCreate].  The commands [setup-ticket-panel],
    [rename], [add] and [remove] write nothing to the table, the pending
    choices or the timers, and are left out of the embedding. *)
Definition interactionCreate (interaction : Interaction) : M unit :=
  modify (λ w, with_deferred false (with_replied false w)) ;;;
  tryCatch
    (match interaction with
     | StringSelectMenu customId user chosen =>
         when (bool_decide (customId = js "ticket_category_select"))
              (onCategorySelect user chosen)
     | ModalSubmit customId user topic_input =>
         when (bool_decide (customId = js "ticket_topic_modal"))
              (onTopicModal user topic_input)
     | ButtonPress customId user member => onButton customId user member
     | ChatInputCommand name user member channelOption channel =>
         when (bool_decide (name ∈ ticketCommands))
              (onTicketCommand name user member channelOption channel)
     end)
    genericError.

End Bot.

(** ** The history of a channel, as the platform pages it

    [history] lists the messages of a channel newest first.  A fetch returns
    the [limit] newest messages, or those that come before the message
    [before]. *)

Fixpoint olderThan (before : jsstring) (history : list Message) : list Message :=
  match history with
  | [] => []
  | m :: history' =>
      if bool_decide (msg_id m = before) then history'
      else olderThan before history'
  end.

Definition pageOf (history : list Message) (limit : N)
    (before : option jsstring) : list Message :=
  take (N.to_nat limit)
       (match before with
        | Some b => olderThan b history
        | None => history
        end).

(** The platform serves the channel [channelId] from [history]. *)
Definition servesHistory (env : Env) (channelId : jsstring)
    (history : list Message) : Prop :=
  ∀ limit before,
    fetchMessages env channelId limit before = Some (pageOf history limit before).

(** The anchor of the fetch number [k] (from 0): none for the first, then
    the id of the last message of the page before, the one at [100 k - 1]. *)
Definition anchorOf (history : list Message) (k : nat) : option jsstring :=
  match k with
  | O => None
  | S _ => msg_id <$> history !! (100 * k - 1)%nat
  end.

(** The fetches that the specification describes for [history]: pages of
    100, each anchored before the last id seen, up to the first page that is
    not full. *)
Definition fetchTrace (channel : Channel) (history : list Message) : list Event :=
  (λ k, MessagesFetch (ch_id channel) 100 (anchorOf history k))
    <$> seq 0 (S (length history / 100)).

(** The text that the specification describes: the header, then oldest
    first one line per message, each followed by one line per attachment. *)
Definition transcriptText (env : Env) (channel : Channel)
    (history : list Message) : jsstring :=
  transcriptHeader channel
  ++ mjoin ((λ m, messageLine env m ++ mjoin (attachmentLine <$> msg_attachments m))
              <$> reverse history).

(** The candidates of the uniqueness loop: [base], [base-1], [base-2], ... *)
Definition candidate (channelBase : jsstring) (k : nat) : jsstring :=
  match k with
  | O => channelBase
  | S _ => channelBase ++ dash :: String_of_N (N.of_nat k)
  end.

(** How a ticket action reaches the dispatcher: as a button of the control
    row, or as a slash command run in the ticket's channel. *)
Inductive Via := ViaButton | ViaCommand.

Definition ticketAction (via : Via) (name : jsstring) (t : Row) (user : User)
    (member : option Member) (channel : Channel) : Interaction :=
  match via with
  | ViaButton => ButtonPress (name ++ underscore :: String_of_N (ticket_id t)) user member
  | ViaCommand => ChatInputCommand name user member None channel
  end.

(** [t] is the row that its id and its channel select in the table. *)
Definition ticketOf (w : World) (t : Row) : Prop :=
  selectById (ticket_id t) (db w) = Some t
  ∧ selectByChannel (channel_id t) (db w) = Some t.

(** One step of [digitsPrefix] on a digit. *)
Definition digitStep (acc : option N) (c : N) : option N :=
  Some (10 * default 0 acc + (c - 48))%N.

(** ** What a handler leaves alone

    [steps R m]: from any world, running [m] leads to a world related by
    [R], however [m] ends. *)
Definition steps (R : relation World) {A} (m : M A) : Prop :=
  ∀ w, R w (m w).2.

(** The component [f] of the world keeps its value. *)
Definition keeps {X} (f : World → X) : relation World :=
  λ w w', f w' = f w.

(** The log grows by events that satisfy [allowed]. *)
Definition logs (allowed : Event → bool) : relation World :=
  λ w w', ∃ es, log w' = log w ++ es ∧ Forall (λ e, allowed e = true) es.

Definition isTableWrite (e : Event) : bool :=
  match e with
  | DbInsert _ | DbSetClaim _ _ | DbSetStatus _ _ => true
  | _ => false
  end.

Definition isChannelDelete (e : Event) : bool :=
  match e with
  | ChannelDelete _ => true
  | _ => false
  end.

Definition isSetTimeout (e : Event) : bool :=
  match e with
  | SetTimeout _ _ => true
  | _ => false
  end.

(** A reply whose embed is an error. *)
Definition isErrorReply (e : Event) : bool :=
  match e with
  | Reply p => match e_kind (p_embed p) with Error => true | _ => false end
  | _ => false
  end.

(** An event that writes no row, deletes no channel and arms no timer. *)
Definition harmless (e : Event) : bool :=
  negb (isTableWrite e) && negb (isChannelDelete e) && negb (isSetTimeout e).

(** The world in which the handler of an interaction starts. *)
Definition fresh (w : World) : World := with_deferred false (with_replied false w).

(** How a ticket action runs when its row is in the table. *)
Definition actionBody (env : Env) (via : Via) (name : jsstring) (t : Row)
    (user : User) (member : option Member) (channel : Channel) (w : World) : M unit :=
  match via with
  | ViaButton =>
      buttonAction env name (ticket_id t) t
        (List.find (λ c, bool_decide (ch_id c = channel_id t)) (cache w)) user member
  | ViaCommand =>
      if negb (isStaff env member)
      then reply env (ephemeral (embedError (js "Geen permissie")
             (js "Alleen staff kan deze actie uitvoeren.")))
      else commandAction env name channel t user member
  end.

(** The staff log channel as [getLogChannel] finds it in the world [w]. *)
Definition logChannelOf (env : Env) (w : World) : option Channel :=
  match List.find (λ c, bool_decide (ch_id c = default [] (STAFF_LOG_CHANNEL_ID env)))
                  (cache w) with
  | Some c => Some c
  | None => fetchChannel env (default [] (STAFF_LOG_CHANNEL_ID env))
  end.

(** The body shared by the two manual transcripts: they differ in the text
    of the first reply and of the notice sent when the private message
    fails. *)
Definition manualTranscript (env : Env) (user : User) (channel : Channel)
    (started dmFailed : Embed) : M unit :=
  reply env (ephemeral started) ;;;
  tryCatch
    (filepath <- makeTranscript env channel ;;
     let p := embedsFile (embedInfo (js "Transcript")
                (js "Transcript voor " ++ ch_name channel)) filepath in
     if truthyOpt (STAFF_LOG_CHANNEL_ID env)
     then sendToStaffLog env p
     else tryCatch (userSend env (u_id user) p)
            (swallow (followUp env (ephemeral dmFailed))))
    (followUp env (ephemeral (embedError (js "Fout")
       (js "Fout bij het maken van transcript")))).

(** Channels stay in the cache, with their id, name and type, through the
    steps that add channels or overwrites. *)
Definition cacheGrows : relation World :=
  λ w w', ∀ c, c ∈ cache w →
    ∃ c', c' ∈ cache w' ∧ ch_id c' = ch_id c ∧ ch_name c' = ch_name c
          ∧ ch_type c' = ch_type c.


(** ** Sample data

    A guild with one ticket, used where a property is shown on a concrete
    run. *)

Definition sampleStaff : Member := mkMember (js "900") false [js "Staff"] None.
Definition sampleGuest : Member := mkMember (js "901") false [] None.
Definition sampleUser : User := mkUser (js "500") (js "Jan_Jansen") (js "jan#0001").

Definition sampleMessages : list Message :=
  [ mkMessage (js "3003") 3000 (Some (js "staff#0002")) (js "zie bijlage")
      [js "https://cdn.example/a.png"; js "https://cdn.example/b.png"];
    mkMessage (js "3002") 2000 None (js "hallo") [];
    mkMessage (js "3001") 1000 (Some (js "jan#0001")) (js "banned by mistake") [] ].

(** Every call of the platform resolves; the ticket channel [700] holds
    [sampleMessages]. *)
Definition sampleEnv : Env :=
  mkEnv (js "Staff") None (js "/app") (js "1") (js "1")
        [mkRole (js "77") (js "Staff")]
        (λ _, true)
        (λ id, if bool_decide (id = js "500")
               then Some (mkMember (js "500") false [] None) else None)
        (λ _, None)
        (λ _ limit before, Some (pageOf sampleMessages limit before))
        (λ n, js "c" ++ String_of_N (N.of_nat n))
        (λ ms, js "T" ++ String_of_N ms)
        1000%N 10.


Definition sampleChannel : Channel :=
  mkChannel (js "700") (js "overige-vragen-jan_jansen") GuildText (Some (js "600")) [].

Definition sampleRow : Row :=
  mkRow 1 (js "1") (js "700") (js "500") None (js "open")
        (Some (js "Overige Vragen")) None 1000.

Definition sampleWorld : World :=
  mkWorld [sampleRow] 1 ∅
          [mkChannel (js "600") (js "Overige Vragen") GuildCategory None []; sampleChannel]
          ∅ ∅ [] false false [].

(** The same guild after the ticket has been closed. *)
Definition sampleClosedRow : Row := set_status (js "closed") sampleRow.
Definition sampleClosedWorld : World := with_db [sampleClosedRow] sampleWorld.

(** The same guild with the ticket claimed by the staff member [900]. *)
Definition sampleClaimedRow : Row := set_claimed_by (Some (js "900")) sampleRow.
Definition sampleClaimedWorld : World := with_db [sampleClaimedRow] sampleWorld.

(** A history of [n] messages, newest first, with the ids [n], ..., 1. *)
Definition numberedMessages (n : nat) : list Message :=
  (λ i, mkMessage (String_of_N (N.of_nat i)) (N.of_nat i) None (js "x") [])
    <$> reverse (seq 1 n).

(** [sampleEnv] with the ticket channel holding 250 messages. *)
Definition sampleEnv250 : Env :=
  mkEnv (js "Staff") None (js "/app") (js "1") (js "1")
        [mkRole (js "77") (js "Staff")]
        (λ _, true) (λ _, None) (λ _, None)
        (λ _ limit before, Some (pageOf (numberedMessages 250) limit before))
        (λ n, js "c" ++ String_of_N (N.of_nat n))
        (λ ms, js "T" ++ String_of_N ms)
        1000%N 10.

(** ** The rest of the program

    The select menu of the panel, the [add] command, and the notions in
    which the behaviour of the whole listener is stated. *)

(** An option of a select menu. *)
Record SelectOption := mkSelectOption {
  opt_label : jsstring;
  opt_value : jsstring
}.

Record SelectMenu := mkSelectMenu {
  menu_customId : jsstring;
  menu_placeholder : jsstring;
  menu_options : list SelectOption;
  menu_minValues : N;
  menu_maxValues : N
}.

(** [buildCategoryDropdown] *)
Definition buildCategoryDropdown : SelectMenu :=
  mkSelectMenu (js "ticket_category_select") (js "Kies een categorie...")
    (imap (λ i c,
             mkSelectOption
               (if (100 <? length c)%nat then take 97 c ++ js "..." else c)
               (String_of_N (N.of_nat i)))
          CATEGORIES)
    1 1.

(** The [add] command: [targetUser] is the id of the user option, [ch] the
    channel the command is run in. *)
Definition onAddCommand (env : Env) (member : option Member)
    (targetUser : jsstring) (ch : Channel) : M unit :=
  if negb (isStaff env member)
  then reply env (ephemeral (embedError (js "Geen permissie")
         (js "Alleen staff kan leden toevoegen/verwijderen.")))
  else
    ticketRow <- getTicketByChannel (ch_id ch) ;;
    match ticketRow with
    | None => reply env (ephemeral (embedError (js "Geen ticket")
                (js "Dit kanaal is geen ticket.")))
    | Some _ =>
        overwriteCreate env ch targetUser ;;;
        me <- memberId member ;;
        channelSend env ch (embeds (embedInfo (js "Gebruiker toegevoegd")
          (mention targetUser ++ js " is toegevoegd door " ++ mention me))) ;;;
        reply env (ephemeral (embedSuccess (js "Toegevoegd")
          (mention targetUser ++ js " toegevoegd aan ticket.")))
    end.

(** The listener on an [add] command. *)
Definition addInteraction (env : Env) (member : option Member)
    (targetUser : jsstring) (ch : Channel) : M unit :=
  modify (λ w, with_deferred false (with_replied false w)) ;;;
  tryCatch (onAddCommand env member targetUser ch) (genericError env).

(** The user behind an interaction. *)
Definition interactionUser (i : Interaction) : User :=
  match i with
  | StringSelectMenu _ user _ => user
  | ModalSubmit _ user _ => user
  | ButtonPress _ user _ => user
  | ChatInputCommand _ user _ _ _ => user
  end.

(** The guild member behind a button or a command. *)
Definition interactionMember (i : Interaction) : option (option Member) :=
  match i with
  | ButtonPress _ _ member => Some member
  | ChatInputCommand _ _ member _ _ => Some member
  | _ => None
  end.

(** What may become of a row: every column but [claimed_by] and [status]
    keeps its value, and the status stays or becomes ['closed']. *)
Definition rowEvolves (r r' : Row) : Prop :=
  ticket_id r' = ticket_id r ∧ guild_id r' = guild_id r
  ∧ channel_id r' = channel_id r ∧ owner_id r' = owner_id r
  ∧ category r' = category r ∧ topic r' = topic r
  ∧ created_at r' = created_at r
  ∧ (status r' = status r ∨ status r' = js "closed").

(** What may become of the table: its rows evolve in place, new rows come
    after them. *)
Definition tableEvolves : relation World :=
  λ w w', ∃ old new, db w' = old ++ new ∧ Forall2 rowEvolves (db w) old.

(** The primary key with [AUTOINCREMENT]: the ids are distinct and none
    exceeds the counter. *)
Definition keyed (w : World) : Prop :=
  NoDup (ticket_id <$> db w)
  ∧ Forall (λ r, (ticket_id r ≤ db_seq w)%N) (db w).

Definition staysKeyed : relation World := λ w w', keyed w → keyed w'.

(** The pending choices of everyone but [userId] are as before. *)
Definition keepsOthers (userId : jsstring) : relation World :=
  λ w w', ∀ k, k ≠ userId →
    pendingCategoryForUser w' !! k = pendingCategoryForUser w !! k.

(** The number of line ends in a text. *)
Definition countNewlines (s : jsstring) : nat :=
  length (List.filter (λ c, (c =? newline)%N) s).

Definition isWriteFile (e : Event) : bool :=
  match e with
  | WriteFile _ => true
  | _ => false
  end.

(** A message without a line end in its author, content or urls. *)
Definition oneLiner (m : Message) : Prop :=
  countNewlines (default [] (msg_author m)) = 0%nat
  ∧ countNewlines (msg_content m) = 0%nat
  ∧ Forall (λ url, countNewlines url = 0%nat) (msg_attachments m).

(** The two delayed callbacks that a close of the ticket [t] may arm. *)
Definition closeTaskOf (t : Row) (task : Task) : Prop :=
  task = CloseButtonTask t (ticket_id t) ∨ task = CloseCommandTask t.

(** The handler has only answered: the table and its counter, the pending
    choices, the channel cache, the files and the timers are as before, and
    the log has grown by events that satisfy [allowed]. *)
Definition onlyAnswers (allowed : Event → bool) : relation World :=
  λ w w',
    db w' = db w ∧ db_seq w' = db_seq w
    ∧ pendingCategoryForUser w' = pendingCategoryForUser w
    ∧ cache w' = cache w ∧ files w' = files w ∧ dirs w' = dirs w
    ∧ timers w' = timers w
    ∧ ∃ es, log w' = log w ++ es ∧ Forall (λ e, allowed e = true) es.

(** The handler comes to an end from every world, by returning or by
    throwing: it does not run out of the fuel of its loops. *)
Definition halts {A} (m : M A) : Prop := ∀ w, (m w).1 ≠ Diverge.


(** A message sent to a channel whose embed is an error. *)
Definition isErrorSend (e : Event) : bool :=
  match e with
  | ChannelSend _ p => match e_kind (p_embed p) with Error => true | _ => false end
  | _ => false
  end.

(** The table has changed in the row [id] at most, which has kept its id. *)
Definition touchesOnly (id : N) : relation World :=
  λ w w', ∃ f, (∀ r, ticket_id (f r) = ticket_id r)
               ∧ db w' = updateWhereId id f (db w).

(** The timers armed are tasks that satisfy [P], added after those that
    were waiting. *)
Definition armsOnly (P : Task → Prop) : relation World :=
  λ w w', ∃ new, timers w' = timers w ++ new ∧ Forall P new.

(** The ticket that an interaction acts on: the row that the id of the
    button, or the channel of the command, selects. *)
Definition targetTicket (i : Interaction) (w : World) : option Row :=
  match i with
  | ButtonPress customId _ _ =>
      id ← toNumber (default [] (split underscore customId !! 1%nat));
      selectById id (db w)
  | ChatInputCommand _ _ _ channelOption channel =>
      selectByChannel (ch_id (default channel channelOption)) (db w)
  | _ => None
  end.

(** The interactions whose handling is embedded in [interactionCreate]: the
    select menus, the modals, the four ticket commands, and the buttons whose
    custom id carries no id or a decimal numeral that [Number] reads exactly
    (up to [Number.MAX_SAFE_INTEGER]). *)
Definition embedded (i : Interaction) : bool :=
  match i with
  | ButtonPress customId _ _ =>
      let idStr := default [] (split underscore customId !! 1%nat) in
      negb (truthy idStr)
      || match toNumber idStr with
         | Some n => (n <=? 9007199254740991)%N
         | None => false
         end
  | ChatInputCommand name _ _ _ _ => bool_decide (name ∈ ticketCommands)
  | _ => true
  end.

(** * Properties *)

(** ** Strings *)

Lemma js_app s1 s2 : js (s1 +:+ s2) = js s1 ++ js s2.
Proof.
  unfold js. induction s1 as [|c s1 IH]; simpl; [done|]. by f_equal.
Qed.

Lemma js_String c s : js (String c s) = Ascii.N_of_ascii c :: js s.
Proof. reflexivity. Qed.

Global Instance js_inj : Inj (=) (=) js.
Proof.
  intros s1. induction s1 as [|c1 s1 IH]; intros [|c2 s2] H; try done.
  rewrite !js_String in H. injection H as Hc Hs.
  f_equal; [|by apply IH].
  rewrite <- (Ascii.ascii_N_embedding c1), <- (Ascii.ascii_N_embedding c2).
  by rewrite Hc.
Qed.

Global Instance String_of_N_inj : Inj (=) (=) String_of_N.
Proof. intros n1 n2 H. unfold String_of_N in H. by apply (inj pretty), (inj js). Qed.

Lemma N_of_pretty_N_char d :
  (d < 10)%N → Ascii.N_of_ascii (pretty_N_char d) = (48 + d)%N.
Proof.
  intros Hd.
  assert (d = 0 ∨ d = 1 ∨ d = 2 ∨ d = 3 ∨ d = 4 ∨ d = 5 ∨ d = 6 ∨ d = 7
          ∨ d = 8 ∨ d = 9)%N as Hcases by lia.
  repeat destruct Hcases as [->|Hcases]; try reflexivity. by subst.
Qed.

Lemma digitsPrefix_digits ds rest acc :
  Forall (λ c, isDigit c = true) ds →
  digitsPrefix acc (ds ++ rest) = digitsPrefix (foldl digitStep acc ds) rest.
Proof.
  intros Hds. revert acc. induction Hds as [|c ds Hc _ IH]; intros acc; [done|].
  simpl. rewrite Hc. apply IH.
Qed.

(** The numeral that [pretty] writes in front of [s]: decimal digits whose
    value is [x]. *)
Lemma pretty_N_go_digits x : ∀ s,
  ∃ ds, js (pretty_N_go x s) = ds ++ js s
        ∧ Forall (λ c, isDigit c = true) ds
        ∧ foldl digitStep None ds = (if decide (x = 0%N) then None else Some x)
        ∧ (x ≠ 0%N → ds ≠ []).
Proof.
  induction x as [x IH] using (well_founded_ind N.lt_wf_0). intros s.
  destruct (decide (x = 0%N)) as [->|Hx].
  { exists []. rewrite pretty_N_go_0. by repeat split. }
  rewrite pretty_N_go_step by lia.
  destruct (IH (x `div` 10)%N) with (s := String (pretty_N_char (x `mod` 10)) s)
    as (ds & Hds & Hdig & Hval & _).
  { apply N.div_lt; lia. }
  assert (x `mod` 10 < 10)%N as Hmod by (apply N.mod_lt; lia).
  exists (ds ++ [(48 + x `mod` 10)%N]). repeat split.
  - rewrite Hds, js_String, N_of_pretty_N_char by done. by rewrite <- app_assoc.
  - apply Forall_app. split; [done|]. apply Forall_singleton.
    unfold isDigit. apply andb_true_intro.
    generalize dependent (x `mod` 10)%N. intros d _ Hd.
    split; apply N.leb_le; lia.
  - rewrite foldl_app. simpl. rewrite Hval. unfold digitStep. f_equal.
    pose proof (N.div_mod x 10 ltac:(lia)) as Hdm.
    generalize dependent (x `mod` 10)%N. generalize dependent (x `div` 10)%N.
    intros q _ r _ Hd Hdm. destruct (decide _) as [->|?]; simpl; lia.
  - intros _. by destruct ds.
Qed.

Lemma String_of_N_digits n :
  Forall (λ c, isDigit c = true) (String_of_N n)
  ∧ String_of_N n ≠ []
  ∧ digitsPrefix None (String_of_N n) = Some n.
Proof.
  unfold String_of_N, pretty, pretty_N.
  destruct (decide (n = 0%N)) as [->|Hn]; [by repeat split; repeat constructor|].
  destruct (pretty_N_go_digits n "") as (ds & Hds & Hdig & Hval & Hne).
  rewrite Hds. change (js "") with (@nil N). rewrite app_nil_r.
  repeat split; [done|by apply Hne|].
  rewrite <- (app_nil_r ds), digitsPrefix_digits by done. simpl.
  rewrite Hval. by destruct (decide _).
Qed.

(** [Number] reads back the id that [String] wrote. *)
Lemma toNumber_String_of_N n : toNumber (String_of_N n) = Some n.
Proof.
  destruct (String_of_N_digits n) as (Hdig & _ & Hval).
  unfold toNumber. rewrite Hval.
  replace (forallb isDigit (String_of_N n)) with true; [done|].
  symmetry. apply forallb_forall. intros c Hc.
  by apply (proj1 (List.Forall_forall _ _) Hdig).
Qed.

Lemma truthy_String_of_N n : truthy (String_of_N n) = true.
Proof.
  destruct (String_of_N_digits n) as (_ & Hne & _). by destruct (String_of_N n).
Qed.

Lemma split_no_sep sep s :
  Forall (λ c, (c =? sep)%N = false) s → split sep s = [s].
Proof.
  induction 1 as [|c s Hc _ IH]; [done|]. simpl. by rewrite Hc, IH.
Qed.

Lemma split_id_digits n : split underscore (String_of_N n) = [String_of_N n].
Proof.
  apply split_no_sep. destruct (String_of_N_digits n) as (Hdig & _).
  eapply Forall_impl; [exact Hdig|]. intros c Hc. simpl in Hc.
  unfold isDigit in Hc. apply andb_prop in Hc as [H1 H2].
  apply N.leb_le in H1, H2. apply N.eqb_neq. unfold underscore. lia.
Qed.

(** ** [normalizeForName] *)

Ltac bool_arith :=
  unfold slugChar, specSlugChar, keptByStrip, isWhiteSpace, isLower, isUpper,
    isDigit, dash, underscore in *;
  rewrite ?Is_true_true in *;
  rewrite ?orb_false_iff, ?orb_true_iff, ?andb_false_iff, ?andb_true_iff,
    ?N.leb_le, ?N.leb_gt, ?N.eqb_eq, ?N.eqb_neq in *;
  lia.

Lemma dropSpace_Forall (P : N → Prop) s : Forall P s → Forall P (dropSpace s).
Proof.
  induction 1 as [|c s Hc Hs IH]; simpl; [constructor|].
  destruct (isWhiteSpace c); [done|by constructor].
Qed.

Lemma trim_Forall (P : N → Prop) s : Forall P s → Forall P (trim s).
Proof.
  intros H. unfold trim.
  by apply Forall_reverse, dropSpace_Forall, Forall_reverse, dropSpace_Forall.
Qed.

Lemma stripSpecial_kept s : Forall (λ c, keptByStrip c = true) (stripSpecial s).
Proof.
  apply List.Forall_forall. intros c Hc.
  by apply List.filter_In in Hc as [_ Hc].
Qed.

Lemma dashRuns_slug inRun s :
  Forall (λ c, keptByStrip c = true) s → Forall slugChar (dashRuns inRun s).
Proof.
  intros H. revert inRun. induction H as [|c s Hc _ IH]; intros inRun; simpl.
  { constructor. }
  destruct (isWhiteSpace c) eqn:Hws.
  - destruct inRun; [apply IH|]. constructor; [|apply IH].
    unfold slugChar. auto.
  - constructor; [|apply IH]. clear IH. bool_arith.
Qed.

Lemma slugChar_plain c : slugChar c → isWhiteSpace c = false ∧ isUpper c = false.
Proof. intros H. split; bool_arith. Qed.



Example normalizeForName_category :
  normalizeForName (js "Unban Aanvraag Ingame") = js "unban-aanvraag-ingame".
Proof. vm_compute. reflexivity. Qed.

Example normalizeForName_blanks :
  normalizeForName (js "  Jan   de Vries!  ") = js "jan-de-vries".
Proof. vm_compute. reflexivity. Qed.

Example normalizeForName_kelvin :
  normalizeForName [0x212a%N; 0x130%N; 78%N; 0xc9%N] = js "kin".
Proof. vm_compute. reflexivity. Qed.

(** ** The uniqueness loop of the channel name *)

Lemma candidate_inj base : Inj (=) (=) (candidate base).
Proof.
  intros [|j] [|k] H; simpl in H; [done| | |].
  - apply (f_equal length) in H. rewrite length_app in H. simpl in H. lia.
  - apply (f_equal length) in H. rewrite length_app in H. simpl in H. lia.
  - apply app_inv_head in H. injection H as H.
    apply (inj String_of_N) in H. lia.
Qed.

Lemma uniqueNameLoop_some n names base : ∀ k r,
  (∀ j, j < k → candidate base j ∈ names) →
  uniqueNameLoop n names base (candidate base k) (N.of_nat (S k)) = Some r →
  ∃ k', r = candidate base k' ∧ (candidate base k' ∉ names)
        ∧ ∀ j, j < k' → candidate base j ∈ names.
Proof.
  induction n as [|n IH]; intros k r Hbelow Hrun; simpl in Hrun; [done|].
  destruct (bool_decide_reflect (candidate base k ∈ names)) as [Hin|Hout].
  - replace (N.of_nat (S k) + 1)%N with (N.of_nat (S (S k))) in Hrun by lia.
    apply (IH (S k) r); [|exact Hrun].
    intros j Hj. destruct (decide (j = k)) as [->|]; [done|]. apply Hbelow. lia.
  - injection Hrun as <-. eauto.
Qed.

Lemma uniqueNameLoop_none n names base : ∀ k,
  uniqueNameLoop n names base (candidate base k) (N.of_nat (S k)) = None →
  ∀ j, k ≤ j < k + n → candidate base j ∈ names.
Proof.
  induction n as [|n IH]; intros k Hrun j Hj; simpl in Hrun; [lia|].
  destruct (bool_decide_reflect (candidate base k ∈ names)) as [Hin|Hout]; [|done].
  replace (N.of_nat (S k) + 1)%N with (N.of_nat (S (S k))) in Hrun by lia.
  destruct (decide (j = k)) as [->|]; [done|].
  apply (IH (S k) Hrun). lia.
Qed.

Lemma uniqueChannelName_returns_candidate names base r :
  uniqueChannelName names base = Some r → ∃ k, r = candidate base k.
Proof.
  intros Hr.
  destruct (uniqueNameLoop_some (S (length names)) names base 0 r)
    as (k & -> & _); [intros j Hj; lia|exact Hr|]. by exists k.
Qed.

(** The loop stops within one more test than there are names. *)
Lemma uniqueChannelName_returns names base :
  is_Some (uniqueChannelName names base).
Proof.
  unfold uniqueChannelName.
  destruct (uniqueNameLoop _ _ _ _ _) as [r|] eqn:Hrun; [by eexists|].
  exfalso.
  pose proof (uniqueNameLoop_none _ _ _ 0 Hrun) as Hall.
  assert ((candidate base <$> seq 0 (S (length names))) ⊆ names) as Hsub.
  { intros c Hc. apply list_elem_of_fmap in Hc as (j & -> & Hj).
    apply elem_of_seq in Hj. apply Hall. lia. }
  assert (NoDup (candidate base <$> seq 0 (S (length names)))) as Hnodup.
  { apply NoDup_fmap_2; [apply candidate_inj|apply NoDup_seq]. }
  pose proof (submseteq_length _ _ (NoDup_submseteq _ _ Hnodup Hsub)) as Hlen.
  rewrite length_fmap, length_seq in Hlen. lia.
Qed.

(** C5: whatever the base name and the names in the cache, the loop returns,
    and what it returns is the first of [base], [base-1], [base-2], ... that
    is no existing name; so the name chosen is none of the existing ones. *)
Theorem uniqueChannelName_first_unused (names : list jsstring) (base : jsstring) :
  ∃ k, uniqueChannelName names base = Some (candidate base k)
       ∧ (candidate base k ∉ names)
       ∧ ∀ j, j < k → candidate base j ∈ names.
Proof.
  destruct (uniqueChannelName_returns names base) as [r Hr].
  destruct (uniqueNameLoop_some (S (length names)) names base 0 r)
    as (k & -> & Hout & Hbelow); [intros j Hj; lia|exact Hr|].
  by exists k.
Qed.

Example uniqueChannelName_collision :
  uniqueChannelName [js "a-1"; js "b"; js "a"] (js "a") = Some (js "a-2").
Proof. vm_compute. reflexivity. Qed.

(** ** Reasoning on handlers *)

Global Instance keeps_preorder {X} (f : World → X) : PreOrder (keeps f).
Proof.
  split; [by intros w|]. intros w1 w2 w3 H12 H23. unfold keeps in *. congruence.
Qed.

Global Instance logs_preorder allowed : PreOrder (logs allowed).
Proof.
  split.
  - intros w. exists []. by rewrite app_nil_r.
  - intros w1 w2 w3 (es1 & H1 & Hes1) (es2 & H2 & Hes2).
    exists (es1 ++ es2). rewrite H2, H1, app_assoc. split; [done|].
    by apply Forall_app.
Qed.

Section Steps.
Context (R : relation World) `{!PreOrder R}.

Lemma steps_ret {A} (a : A) : steps R (ret a).
Proof. intros w. reflexivity. Qed.

Lemma steps_throw {A} : steps R (@throw A).
Proof. intros w. reflexivity. Qed.

Lemma steps_diverge {A} : steps R (@diverge A).
Proof. intros w. reflexivity. Qed.

Lemma steps_get : steps R get.
Proof. intros w. reflexivity. Qed.

Lemma steps_bind {A B} (m : M A) (k : A → M B) :
  steps R m → (∀ a, steps R (k a)) → steps R (bind m k).
Proof.
  intros Hm Hk w. unfold bind. specialize (Hm w).
  destruct (m w) as [[a| |] w1]; simpl in *; [|done..].
  etrans; [exact Hm|apply Hk].
Qed.

Lemma steps_tryCatch {A} (m h : M A) :
  steps R m → steps R h → steps R (tryCatch m h).
Proof.
  intros Hm Hh w. unfold tryCatch. specialize (Hm w).
  destruct (m w) as [[a| |] w1]; simpl in *; [done| |done].
  etrans; [exact Hm|apply Hh].
Qed.
End Steps.

Lemma steps_keeps_modify {X} (f : World → X) g :
  (∀ w, f (g w) = f w) → steps (keeps f) (modify g).
Proof. intros H w. apply H. Qed.

Lemma steps_logs_modify allowed g :
  (∀ w, log (g w) = log w) → steps (logs allowed) (modify g).
Proof. intros H w. exists []. simpl. by rewrite H, app_nil_r. Qed.

Lemma steps_keeps_emit {X} (f : World → X) e :
  (∀ w l, f (with_log l w) = f w) → steps (keeps f) (emit e).
Proof. intros H w. apply H. Qed.

Lemma steps_logs_emit allowed e :
  allowed e = true → steps (logs allowed) (emit e).
Proof. intros H w. exists [e]. split; [done|]. by constructor. Qed.

Ltac head_of t :=
  lazymatch t with
  | ?f _ => head_of f
  | _ => t
  end.

(** One move on a goal [steps R m], by the shape of [m]. *)
Ltac steps_step :=
  lazymatch goal with
  | |- steps _ (ret _) => apply steps_ret; tc_solve
  | |- steps _ throw => apply steps_throw; tc_solve
  | |- steps _ diverge => apply steps_diverge; tc_solve
  | |- steps _ get => apply steps_get; tc_solve
  | |- steps _ (bind _ _) => apply steps_bind; [tc_solve| |intros ?]
  | |- steps _ (tryCatch _ _) => apply steps_tryCatch; [tc_solve| |]
  | |- steps (keeps _) (modify _) => apply steps_keeps_modify; intros; reflexivity
  | |- steps (keeps _) (emit _) => apply steps_keeps_emit; intros; reflexivity
  | |- steps (logs _) (modify _) => apply steps_logs_modify; intros; reflexivity
  | |- steps (logs _) (emit _) => apply steps_logs_emit; reflexivity
  | |- steps _ (match ?x with _ => _ end) => destruct x
  | |- steps _ (let _ := _ in _) => cbv zeta
  | |- steps _ ?m => let h := head_of m in unfold h
  end.

Section Frames.
Context (env : Env) (R : relation World) `{!PreOrder R}.

(** The paging loop steps as its fetches do. *)
Lemma steps_fetchLoop n channel messages lastId :
  (∀ before, steps R (messagesFetch env channel 100 before)) →
  steps R (fetchLoop env n channel messages lastId).
Proof.
  intros Hfetch. revert messages lastId.
  induction n as [|n IH]; intros messages lastId; simpl.
  { apply steps_diverge; tc_solve. }
  apply steps_bind; [tc_solve|apply Hfetch|]. intros fetched.
  destruct (_ =? _)%nat; [apply steps_ret; tc_solve|].
  destruct (_ <? _)%nat; [apply steps_ret; tc_solve|]. apply IH.
Qed.
End Frames.

Ltac steps_auto :=
  repeat first
    [ lazymatch goal with
      | |- steps _ (fetchLoop _ _ _ _ _) =>
          apply steps_fetchLoop; [tc_solve|intros ?]
      end
    | steps_step ].

(** The manual transcript writes no row, deletes no channel, arms no timer. *)
Lemma transcriptButton_harmless env ticketRow user member :
  steps (logs harmless) (transcriptButton env ticketRow user member).
Proof. steps_auto. Qed.

Lemma transcriptButton_keeps_db env ticketRow user member :
  steps (keeps db) (transcriptButton env ticketRow user member).
Proof. steps_auto. Qed.

(** ** The transcript builder *)

Lemma with_log_with_log l1 l2 w : with_log l2 (with_log l1 w) = with_log l2 w.
Proof. by destruct w. Qed.

Lemma with_log_id w : with_log (log w) w = w.
Proof. by destruct w. Qed.

Lemma foldl_append {A} (f : A → jsstring) (init : jsstring) (l : list A) :
  foldl (λ text x, text ++ f x) init l = init ++ mjoin (f <$> l).
Proof.
  revert init. induction l as [|x l IH]; intros init; simpl.
  - by rewrite app_nil_r.
  - by rewrite IH, app_assoc.
Qed.

Lemma renderMessage_lines env m :
  renderMessage env m
  = messageLine env m ++ mjoin (attachmentLine <$> msg_attachments m).
Proof.
  unfold renderMessage. f_equal.
  destruct (msg_attachments m) as [|url urls]; [done|].
  by rewrite foldl_append.
Qed.

Lemma olderThan_lookup history : ∀ i m,
  NoDup (msg_id <$> history) →
  history !! i = Some m →
  olderThan (msg_id m) history = drop (S i) history.
Proof.
  induction history as [|m0 history IH]; intros i m Hnodup Hi; [done|].
  rewrite fmap_cons in Hnodup. apply NoDup_cons in Hnodup as [Hfresh Hnodup].
  destruct i as [|i]; simpl in *.
  - injection Hi as ->. by rewrite bool_decide_eq_true_2.
  - rewrite bool_decide_eq_false_2; [by apply IH|].
    intros Heq. apply Hfresh. rewrite Heq.
    apply list_elem_of_fmap. exists m. split; [done|].
    by eapply list_elem_of_lookup_2.
Qed.

Section Paging.
Context (env : Env) (channel : Channel) (history : list Message).
Context (Hserves : servesHistory env (ch_id channel) history).
Context (Hnodup : NoDup (msg_id <$> history)).
Context (Hids : Forall (λ m, truthy (msg_id m) = true) history).

Lemma anchorOf_truthy k :
  (100 * k ≤ length history)%nat →
  (if truthyOpt (anchorOf history k) then anchorOf history k else None)
  = anchorOf history k.
Proof using Hids.
  intros Hk. destruct k as [|k]; [done|].
  change (anchorOf history (S k)) with (msg_id <$> history !! (100 * S k - 1)%nat).
  destruct (history !! _) as [m|] eqn:Hm; [|done]. simpl.
  apply list_elem_of_lookup_2 in Hm.
  by rewrite (proj1 (Forall_forall _ _) Hids m Hm).
Qed.

(** The page that a fetch anchored at [anchorOf history k] returns. *)
Lemma pageOf_anchor k :
  (100 * k ≤ length history)%nat →
  pageOf history 100 (anchorOf history k) = take 100 (drop (100 * k) history).
Proof using Hnodup.
  intros Hk. unfold pageOf.
  change (N.to_nat 100) with 100%nat. f_equal.
  destruct k as [|k]; [done|].
  change (anchorOf history (S k)) with (msg_id <$> history !! (100 * S k - 1)%nat).
  destruct (lookup_lt_is_Some_2 history (100 * S k - 1)) as [m Hm]; [lia|].
  rewrite Hm. simpl. rewrite (olderThan_lookup _ _ _ Hnodup Hm).
  f_equal. lia.
Qed.

Lemma fetchLoop_run n : ∀ k w,
  (100 * k ≤ length history)%nat →
  (length history / 100 - k < n)%nat →
  fetchLoop env n channel (take (100 * k) history) (anchorOf history k) w
  = (Ret history,
     with_log (log w ++
       ((λ j, MessagesFetch (ch_id channel) 100 (anchorOf history j))
          <$> seq k (S (length history / 100) - k))) w).
Proof using Hserves Hnodup Hids.
  pose proof (Nat.div_mod_eq (length history) 100) as Hdiv.
  pose proof (Nat.mod_upper_bound (length history) 100 ltac:(lia)) as Hmod.
  revert Hdiv Hmod.
  generalize (length history `mod` 100)%nat. generalize (length history / 100)%nat.
  intros K r Hdiv Hmod.
  induction n as [|n IH]; intros k w Hk Hfuel; [lia|].
  cbn [fetchLoop]. rewrite anchorOf_truthy by done.
  unfold bind at 1, messagesFetch, bind at 1, emit, modify.
  rewrite Hserves, pageOf_anchor by done.
  unfold ret at 1.
  assert (length (take 100 (drop (100 * k) history))
          = (100 `min` (length history - 100 * k))%nat) as Hlen.
  { by rewrite length_take, length_drop. }
  destruct (decide (length history - 100 * k < 100)%nat) as [Hlast|Hfull].
  - (* the last page *)
    assert (K = k) as -> by lia.
    replace (S k - k)%nat with 1%nat by lia. simpl seq. simpl fmap.
    destruct (_ =? _)%nat eqn:Hzero.
    + apply Nat.eqb_eq in Hzero. unfold ret. f_equal.
      rewrite take_ge by lia. done.
    + replace (_ <? 100)%nat with true by (symmetry; apply Nat.ltb_lt; lia).
      unfold ret. f_equal.
      rewrite (take_ge (drop _ _)) by (rewrite length_drop; lia).
      by rewrite take_drop.
  - (* a full page *)
    replace (_ =? 0)%nat with false by (symmetry; apply Nat.eqb_neq; lia).
    replace (_ <? 100)%nat with false by (symmetry; apply Nat.ltb_ge; lia).
    rewrite take_take_drop.
    replace (msg_id <$> last (take 100 (drop (100 * k) history)))
      with (anchorOf history (S k)).
    2:{ rewrite last_lookup, Hlen.
        change (anchorOf history (S k))
          with (msg_id <$> history !! (100 * S k - 1)%nat).
        rewrite lookup_take_lt, lookup_drop by lia.
        do 2 f_equal. lia. }
    replace (100 * k + 100)%nat with (100 * S k)%nat by lia.
    rewrite IH by lia. f_equal.
    rewrite with_log_with_log. f_equal. simpl log.
    replace (S K - k)%nat with (S (S K - S k)) by lia.
    by rewrite <- app_assoc.
Qed.
End Paging.


Section Transcript.
Context (env : Env) (channel : Channel) (history : list Message).
Context (Hserves : servesHistory env (ch_id channel) history).
Context (Hnodup : NoDup (msg_id <$> history)).
Context (Hids : Forall (λ m, truthy (msg_id m) = true) history).
Context (Hfuel : (length history / 100 < fuel env)%nat).

(** With a channel served from [history] and fuel for its pages,
    [makeTranscript] returns the path of the file, having fetched the pages
    and written the text; nothing else of the world changes but the
    transcript directory. *)
Lemma makeTranscript_run w :
  ∃ w', makeTranscript env channel w = (Ret (transcriptPath env channel), w')
    ∧ log w' = log w ++ fetchTrace channel history
                ++ [WriteFile (transcriptPath env channel)]
    ∧ files w' = <[transcriptPath env channel := transcriptText env channel history]>
                   (files w)
    ∧ db w' = db w ∧ db_seq w' = db_seq w ∧ cache w' = cache w
    ∧ timers w' = timers w ∧ replied w' = replied w ∧ deferred w' = deferred w
    ∧ pendingCategoryForUser w' = pendingCategoryForUser w.
Proof using Hserves Hnodup Hids Hfuel.
  unfold makeTranscript.
  unfold bind at 1, get. cbv beta iota. unfold bind at 1.
  destruct (when _ _ w) as [r w1] eqn:Hwhen.
  assert (r = Ret tt ∧ log w1 = log w ∧ files w1 = files w ∧ db w1 = db w
          ∧ db_seq w1 = db_seq w ∧ cache w1 = cache w ∧ timers w1 = timers w
          ∧ replied w1 = replied w ∧ deferred w1 = deferred w
          ∧ pendingCategoryForUser w1 = pendingCategoryForUser w)
    as (-> & Hlog & Hfiles & Hdb & Hseq & Hcache & Htimers & Hrep & Hdef & Hpend).
  { destruct (negb _); injection Hwhen as <- <-; done. }
  clear Hwhen.
  unfold bind at 1.
  change (@nil Message) with (take (100 * 0) history).
  change (@None jsstring) with (anchorOf history 0).
  rewrite (fetchLoop_run env channel history Hserves Hnodup Hids) by lia.
  cbv zeta. eexists. split; [reflexivity|].
  unfold writeFileSync, bind, modify, emit, ret.
  cbn [log files db db_seq cache timers replied deferred pendingCategoryForUser
       with_log with_files snd fst].
  rewrite Hlog, Hfiles, Hdb, Hseq, Hcache, Htimers, Hrep, Hdef, Hpend.
  rewrite Nat.sub_0_r, <- app_assoc. unfold fetchTrace.
  repeat split. f_equal.
  unfold transcriptText. rewrite foldl_append. do 2 f_equal.
  apply list_fmap_ext. intros _ m _. apply renderMessage_lines.
Qed.

End Transcript.

(** ** The dispatcher *)

Arguments String_of_N : simpl never.
Arguments js : simpl never.

Lemma split_app_sep sep name rest :
  Forall (λ c, (c =? sep)%N = false) name →
  split sep (name ++ sep :: rest) = name :: split sep rest.
Proof.
  induction 1 as [|c name Hc _ IH]; simpl.
  - by rewrite N.eqb_refl.
  - by rewrite Hc, IH.
Qed.

(** A custom id written by [buildTicketControlRow] reads back as its action
    and its ticket. *)
Lemma onButton_wellformed env name id user member :
  Forall (λ c, (c =? underscore)%N = false) name →
  onButton env (name ++ underscore :: String_of_N id) user member
  = (ticketRow <- getTicketById id ;;
     match ticketRow with
     | None => reply env (ephemeral (embedError (js "Niet gevonden")
                 (js "Ticket niet gevonden in database")))
     | Some ticketRow =>
         channelObj <- cacheGet (channel_id ticketRow) ;;
         buttonAction env name id ticketRow channelObj user member
     end).
Proof.
  intros Hname. unfold onButton.
  rewrite split_app_sep, split_id_digits by done. simpl.
  by rewrite truthy_String_of_N, toNumber_String_of_N.
Qed.

Lemma interactionCreate_action env via name t user member channel w :
  Forall (λ c, (c =? underscore)%N = false) name →
  name ∈ ticketCommands →
  ticketOf w t →
  ch_id channel = channel_id t →
  interactionCreate env (ticketAction via name t user member channel) w
  = tryCatch (actionBody env via name t user member channel w)
             (genericError env) (fresh w).
Proof.
  intros Hname Hcmd [Hid Hch] Hchannel.
  unfold interactionCreate, bind at 1, modify. fold (fresh w).
  unfold tryCatch. destruct via; simpl.
  - rewrite onButton_wellformed by done.
    unfold bind at 1, getTicketById, bind at 1, get, ret. simpl. rewrite Hid.
    unfold bind at 1, cacheGet, bind at 1, get, ret. simpl. done.
  - rewrite bool_decide_eq_true_2 by done. simpl.
    unfold onTicketCommand, bind at 1, getTicketByChannel, bind at 1, get, ret.
    simpl. rewrite Hchannel, Hch. done.
Qed.

Ltac js_neq := let H := fresh in intros H; vm_compute in H; discriminate H.
Ltac name_ok := vm_compute; repeat constructor.

Lemma buttonAction_claim env id t ch user member :
  buttonAction env (js "claim") id t ch user member = claimButton env id t ch member.
Proof. unfold buttonAction. by rewrite bool_decide_eq_true_2. Qed.

Lemma buttonAction_unclaim env id t ch user member :
  buttonAction env (js "unclaim") id t ch user member = unclaimButton env id t ch member.
Proof.
  unfold buttonAction.
  rewrite bool_decide_eq_false_2 by js_neq. by rewrite bool_decide_eq_true_2.
Qed.


Lemma buttonAction_transcript env id t ch user member :
  buttonAction env (js "transcript") id t ch user member
  = transcriptButton env t user member.
Proof.
  unfold buttonAction.
  rewrite !bool_decide_eq_false_2 by js_neq. by rewrite bool_decide_eq_true_2.
Qed.

Lemma commandAction_claim env channel t user member :
  commandAction env (js "claim") channel t user member
  = claimCommand env channel t member.
Proof. unfold commandAction. by rewrite bool_decide_eq_true_2. Qed.

Lemma commandAction_unclaim env channel t user member :
  commandAction env (js "unclaim") channel t user member
  = unclaimCommand env channel t member.
Proof.
  unfold commandAction.
  rewrite bool_decide_eq_false_2 by js_neq. by rewrite bool_decide_eq_true_2.
Qed.


Lemma commandAction_transcript env channel t user member :
  commandAction env (js "transcript") channel t user member
  = transcriptCommand env user channel.
Proof.
  unfold commandAction.
  rewrite !bool_decide_eq_false_2 by js_neq. by rewrite bool_decide_eq_true_2.
Qed.

Lemma isStaff_member env member :
  isStaff env member = true → ∃ m, member = Some m.
Proof. destruct member as [m|]; [eauto|done]. Qed.

(** What comes after a step that keeps [f] does not show in [f]. *)
Lemma bind_keeps {X A B} (f : World → X) (m : M A) (k : A → M B) w :
  (∀ a, steps (keeps f) (k a)) → f (bind m k w).2 = f (m w).2.
Proof.
  intros Hk. unfold bind. destruct (m w) as [[a| |] w1]; [apply Hk|done..].
Qed.

Lemma tryCatch_keeps {X A} (f : World → X) (m h : M A) w :
  steps (keeps f) h → f (tryCatch m h w).2 = f (m w).2.
Proof.
  intros Hh. unfold tryCatch. destruct (m w) as [[a| |] w1]; [done|apply Hh|done].
Qed.

Lemma genericError_keeps_db env : steps (keeps db) (genericError env).
Proof. steps_auto. Qed.

Lemma genericError_keeps_cache env : steps (keeps cache) (genericError env).
Proof. steps_auto. Qed.


Lemma genericError_errors env : steps (logs isErrorReply) (genericError env).
Proof. steps_auto. Qed.

Lemma genericError_harmless env : steps (logs harmless) (genericError env).
Proof. steps_auto. Qed.

(** *** Rows of the table *)

Lemma selectById_update id f rows t :
  ticket_id (f t) = ticket_id t →
  selectById id rows = Some t →
  selectById id (updateWhereId id f rows) = Some (f t).
Proof.
  intros Hf. unfold selectById, updateWhereId.
  induction rows as [|r rows IH]; simpl; [done|].
  destruct (ticket_id r =? id)%N eqn:Hr.
  - intros [= ->]. simpl. apply N.eqb_eq in Hr. rewrite Hf.
    by rewrite (proj2 (N.eqb_eq _ _) Hr).
  - intros H. simpl. rewrite Hr. by apply IH.
Qed.

Lemma selectById_id id rows t : selectById id rows = Some t → ticket_id t = id.
Proof.
  unfold selectById. intros H. apply List.find_some in H as [_ H].
  by apply N.eqb_eq.
Qed.


(** *** Claim *)

Section Claim.
Context (env : Env) (t : Row) (member : option Member).

Lemma claimButton_sets channelObj w :
  isStaff env member = true →
  truthyOpt (claimed_by t) = false →
  ∃ m, member = Some m
    ∧ db (claimButton env (ticket_id t) t channelObj member w).2
      = updateWhereId (ticket_id t) (set_claimed_by (Some (m_id m))) (db w).
Proof.
  intros Hstaff Hfree. destruct (isStaff_member _ _ Hstaff) as [m ->].
  exists m. split; [done|]. unfold claimButton. rewrite Hstaff, Hfree. simpl.
  unfold memberId. unfold bind at 1, ret at 1.
  rewrite bind_keeps by (intros; steps_auto). done.
Qed.

Lemma claimCommand_sets channel w :
  isStaff env member = true →
  truthyOpt (claimed_by t) = false →
  ∃ m, member = Some m
    ∧ db (claimCommand env channel t member w).2
      = updateWhereId (ticket_id t) (set_claimed_by (Some (m_id m))) (db w).
Proof.
  intros Hstaff Hfree. destruct (isStaff_member _ _ Hstaff) as [m ->].
  exists m. split; [done|]. unfold claimCommand. rewrite Hfree.
  unfold memberId. unfold bind at 1, ret at 1.
  rewrite bind_keeps by (intros; steps_auto). done.
Qed.
End Claim.

(** A handler that only answers with an error: the table is as before, and
    the log gains that reply, followed at most by the generic error of the
    listener. *)
Lemma reject_run env e w :
  e_kind e = Error →
  let w' := (tryCatch (reply env (ephemeral e)) (genericError env) (fresh w)).2 in
  db w' = db w
  ∧ ∃ p es, isErrorReply (Reply p) = true
      ∧ log w' = log w ++ Reply p :: es
      ∧ Forall (λ e, isErrorReply e = true) es.
Proof.
  intros He w'. split.
  { subst w'. rewrite tryCatch_keeps by apply genericError_keeps_db.
    assert (steps (keeps db) (reply env (ephemeral e))) as H by steps_auto.
    apply (H (fresh w)). }
  exists (ephemeral e). subst w'.
  unfold tryCatch, reply, bind at 1, get. simpl.
  unfold bind at 1, call, bind at 1, emit, modify. simpl.
  destruct (succeeds env _).
  - exists []. simpl. split; [by rewrite He|]. by split.
  - simpl. destruct (genericError_errors env
      (with_log (log w ++ [Reply (ephemeral e)]) (fresh w))) as (es & Hes & Hall).
    exists es. split; [by rewrite He|]. split; [|done].
    rewrite Hes. simpl. by rewrite <- app_assoc.
Qed.

Ltac is_error_reply := eexists; split; [|reflexivity]; reflexivity.

Lemma claim_rejects_body env via t user member channel w :
  isStaff env member = false ∨ truthyOpt (claimed_by t) = true →
  ∃ e, e_kind e = Error
    ∧ actionBody env via (js "claim") t user member channel w
      = reply env (ephemeral e).
Proof.
  intros Hrej. destruct via; simpl.
  - rewrite buttonAction_claim. unfold claimButton.
    destruct (isStaff env member); simpl; [|is_error_reply].
    destruct Hrej as [? | ->]; [done|]. is_error_reply.
  - destruct (isStaff env member); simpl; [|is_error_reply].
    rewrite commandAction_claim. unfold claimCommand.
    destruct Hrej as [? | ->]; [done|]. is_error_reply.
Qed.

Lemma claim_db env via t user member channel w :
  isStaff env member = true →
  truthyOpt (claimed_by t) = false →
  ∃ m, member = Some m
    ∧ db (actionBody env via (js "claim") t user member channel w (fresh w)).2
      = updateWhereId (ticket_id t) (set_claimed_by (Some (m_id m))) (db w).
Proof.
  intros Hstaff Hfree. destruct via; simpl.
  - rewrite buttonAction_claim.
    exact (claimButton_sets env t member _ (fresh w) Hstaff Hfree).
  - rewrite Hstaff. simpl. rewrite commandAction_claim.
    exact (claimCommand_sets env t member _ (fresh w) Hstaff Hfree).
Qed.

Lemma claim_names : Forall (λ c, (c =? underscore)%N = false) (js "claim")
                    ∧ js "claim" ∈ ticketCommands.
Proof. split; [name_ok|]. unfold ticketCommands. set_solver. Qed.


(** *** Unclaim *)

Lemma unclaim_rejects_body env via t user member channel w :
  isStaff env member = false ∨ truthyOpt (claimed_by t) = false →
  ∃ e, e_kind e = Error
    ∧ actionBody env via (js "unclaim") t user member channel w
      = reply env (ephemeral e).
Proof.
  intros Hrej. destruct via; simpl.
  - rewrite buttonAction_unclaim. unfold unclaimButton.
    destruct (isStaff env member); simpl; [|is_error_reply].
    destruct Hrej as [? | ->]; [done|]. is_error_reply.
  - destruct (isStaff env member); simpl; [|is_error_reply].
    rewrite commandAction_unclaim. unfold unclaimCommand.
    destruct Hrej as [? | ->]; [done|]. is_error_reply.
Qed.

Lemma unclaim_db env via t user member channel w :
  isStaff env member = true →
  truthyOpt (claimed_by t) = true →
  db (actionBody env via (js "unclaim") t user member channel w (fresh w)).2
  = updateWhereId (ticket_id t) (set_claimed_by None) (db w).
Proof.
  intros Hstaff Hheld. destruct via; simpl.
  - rewrite buttonAction_unclaim. unfold unclaimButton.
    rewrite Hstaff, Hheld. simpl.
    rewrite bind_keeps by (intros; steps_auto). done.
  - rewrite Hstaff. simpl. rewrite commandAction_unclaim. unfold unclaimCommand.
    rewrite Hheld. simpl.
    rewrite bind_keeps by (intros; steps_auto). done.
Qed.

Lemma unclaim_names : Forall (λ c, (c =? underscore)%N = false) (js "unclaim")
                      ∧ js "unclaim" ∈ ticketCommands.
Proof. split; [name_ok|]. unfold ticketCommands. set_solver. Qed.

(** The table after a claim that goes through. *)
Lemma claim_interaction_db env w via t user member channel :
  ticketOf w t →
  ch_id channel = channel_id t →
  isStaff env member = true →
  truthyOpt (claimed_by t) = false →
  ∃ m, member = Some m
    ∧ db (interactionCreate env
            (ticketAction via (js "claim") t user member channel) w).2
      = updateWhereId (ticket_id t) (set_claimed_by (Some (m_id m))) (db w).
Proof.
  intros Ht Hch Hstaff Hfree. destruct claim_names as [Hname Hcmd].
  rewrite interactionCreate_action by done.
  destruct (claim_db env via t user member channel w Hstaff Hfree) as (m & -> & Hdb).
  exists m. split; [done|].
  by rewrite tryCatch_keeps by apply genericError_keeps_db.
Qed.

(** The table after an unclaim that goes through. *)
Lemma unclaim_interaction_db env w via t user member channel :
  ticketOf w t →
  ch_id channel = channel_id t →
  isStaff env member = true →
  truthyOpt (claimed_by t) = true →
  db (interactionCreate env
        (ticketAction via (js "unclaim") t user member channel) w).2
  = updateWhereId (ticket_id t) (set_claimed_by None) (db w).
Proof.
  intros Ht Hch Hstaff Hheld. destruct unclaim_names as [Hname Hcmd].
  rewrite interactionCreate_action by done.
  rewrite tryCatch_keeps by apply genericError_keeps_db.
  by apply unclaim_db.
Qed.



Lemma set_claimed_by_same t : set_claimed_by (claimed_by t) t = t.
Proof. by destruct t. Qed.



(** *** Claim and unclaim, whatever the status *)

Lemma claim_interaction_rejected env w via t user member channel :
  ticketOf w t →
  ch_id channel = channel_id t →
  isStaff env member = false ∨ truthyOpt (claimed_by t) = true →
  db (interactionCreate env
        (ticketAction via (js "claim") t user member channel) w).2 = db w.
Proof.
  intros Ht Hch Hrej. destruct claim_names as [Hname Hcmd].
  rewrite interactionCreate_action by done.
  destruct (claim_rejects_body env via t user member channel w Hrej) as (e & He & ->).
  by apply reject_run.
Qed.

Lemma unclaim_interaction_rejected env w via t user member channel :
  ticketOf w t →
  ch_id channel = channel_id t →
  isStaff env member = false ∨ truthyOpt (claimed_by t) = false →
  db (interactionCreate env
        (ticketAction via (js "unclaim") t user member channel) w).2 = db w.
Proof.
  intros Ht Hch Hrej. destruct unclaim_names as [Hname Hcmd].
  rewrite interactionCreate_action by done.
  destruct (unclaim_rejects_body env via t user member channel w Hrej) as (e & He & ->).
  by apply reject_run.
Qed.

(** C4, as the code has it: claim and unclaim do not look at the status.
    Whatever the status of the ticket, the action leaves the table as it is
    or rewrites the [claimed_by] column of the ticket's rows and nothing
    else, so the row of the ticket differs from before in [claimed_by] at
    most; and on a ticket whose status is ['closed'] a staff claim of an
    unclaimed ticket still sets [claimed_by], a staff unclaim of a claimed
    one still clears it, the status staying ['closed']. *)
Theorem claim_unclaim_whatever_status env w via name t user member channel :
  name = js "claim" ∨ name = js "unclaim" →
  ticketOf w t →
  ch_id channel = channel_id t →
  let w' := (interactionCreate env
               (ticketAction via name t user member channel) w).2 in
  (db w' = db w
   ∨ ∃ v, db w' = updateWhereId (ticket_id t) (set_claimed_by v) (db w))
  ∧ (∃ v, selectById (ticket_id t) (db w') = Some (set_claimed_by v t))
  ∧ (status t = js "closed" → isStaff env member = true →
     (name = js "claim" → claimed_by t = None →
        ∃ m r, member = Some m ∧ selectById (ticket_id t) (db w') = Some r
          ∧ claimed_by r = Some (m_id m) ∧ status r = js "closed")
     ∧ (name = js "unclaim" → truthyOpt (claimed_by t) = true →
        ∃ r, selectById (ticket_id t) (db w') = Some r
          ∧ claimed_by r = None ∧ status r = js "closed")).
Proof.
  intros Hname Ht Hch w'.
  assert (db w' = db w ∧ selectById (ticket_id t) (db w') = Some t
          ∨ ∃ v, db w' = updateWhereId (ticket_id t) (set_claimed_by v) (db w)
                 ∧ selectById (ticket_id t) (db w') = Some (set_claimed_by v t)
                 ∧ (name = js "claim" → isStaff env member = true
                    ∧ truthyOpt (claimed_by t) = false
                    ∧ ∃ m, member = Some m ∧ v = Some (m_id m))
                 ∧ (name = js "unclaim" → v = None)) as Hcases.
  { subst w'.
    destruct (isStaff env member) eqn:Hstaff, (truthyOpt (claimed_by t)) eqn:Hheld,
      Hname as [-> | ->].
    - left. rewrite claim_interaction_rejected by auto. split; [done|apply Ht].
    - right. exists None. rewrite unclaim_interaction_db by done.
      split; [done|]. split; [apply selectById_update; [done|apply Ht]|].
      split; [intros H; by vm_compute in H|done].
    - right.
      destruct (claim_interaction_db env w via t user member channel)
        as (m & -> & Hdb); [done..|].
      exists (Some (m_id m)). rewrite Hdb.
      split; [done|]. split; [apply selectById_update; [done|apply Ht]|].
      split; [eauto|intros H; by vm_compute in H].
    - left. rewrite unclaim_interaction_rejected by auto. split; [done|apply Ht].
    - left. rewrite claim_interaction_rejected by auto. split; [done|apply Ht].
    - left. rewrite unclaim_interaction_rejected by auto. split; [done|apply Ht].
    - left. rewrite claim_interaction_rejected by auto. split; [done|apply Ht].
    - left. rewrite unclaim_interaction_rejected by auto. split; [done|apply Ht]. }
  split; [|split].
  - destruct Hcases as [[? _]|(v & ? & _)]; eauto.
  - destruct Hcases as [[_ ?]|(v & _ & ? & _)]; [|eauto].
    exists (claimed_by t). by rewrite set_claimed_by_same.
  - intros Hclosed Hstaff. split.
    + intros -> Hnull.
      destruct Hcases as [[Hsame _]|(v & _ & Hsel & Hv & _)].
      * subst w'. destruct (claim_interaction_db env w via t user member channel)
          as (m & -> & Hdb); [done..|by rewrite Hnull|].
        exists m, (set_claimed_by (Some (m_id m)) t). split; [done|].
        rewrite Hdb. split; [apply selectById_update; [done|apply Ht]|done].
      * destruct (Hv eq_refl) as (_ & _ & m & -> & ->).
        exists m, (set_claimed_by (Some (m_id m)) t). by repeat split.
    + intros -> Hheld.
      exists (set_claimed_by None t). subst w'.
      rewrite unclaim_interaction_db by done.
      split; [apply selectById_update; [done|apply Ht]|done].
Qed.

(** C4, as the specification words it, fails: the staff member [900]
    presses Claim on the closed ticket 1 and the row changes. *)
Lemma closed_ticket_is_claimed :
  ¬ (∀ env w via t user member channel,
       ticketOf w t → ch_id channel = channel_id t → status t = js "closed" →
       db (interactionCreate env
             (ticketAction via (js "claim") t user member channel) w).2 = db w).
Proof.
  intros H.
  specialize (H sampleEnv sampleClosedWorld ViaButton sampleClosedRow sampleUser
                (Some sampleStaff) sampleChannel).
  assert (ticketOf sampleClosedWorld sampleClosedRow) as Ht by (split; reflexivity).
  specialize (H Ht eq_refl eq_refl).
  vm_compute in H. discriminate H.
Qed.

(** *** Close *)






(** *** The delayed step *)

(** A message for the staff log never throws. *)
Lemma sendToStaffLog_returns env p w :
  ∃ w', sendToStaffLog env p w = (Ret tt, w').
Proof.
  unfold sendToStaffLog. destruct (truthyOpt _); [|by eexists].
  unfold bind at 1, getLogChannel, bind at 1, cacheGet, bind at 1, get, ret. simpl.
  destruct (List.find _ _) as [c|]; simpl.
  - unfold swallow, tryCatch, channelSend, call, bind, emit, modify, ret, throw.
    simpl. destruct (succeeds env _); by eexists.
  - destruct (fetchChannel env _) as [c|]; [|by eexists].
    unfold swallow, tryCatch, channelSend, call, bind, emit, modify, ret, throw.
    simpl. destruct (succeeds env _); by eexists.
Qed.

(** Nor does a private message sent with [.catch(() => {})]. *)
Lemma swallow_userSend_returns env id p w :
  ∃ w', swallow (userSend env id p) w = (Ret tt, w').
Proof.
  unfold swallow, tryCatch, userSend, call, bind, emit, modify, ret, throw.
  simpl. destruct (succeeds env _); by eexists.
Qed.








(** *** The manual transcript *)

Lemma transcript_names : Forall (λ c, (c =? underscore)%N = false) (js "transcript")
                         ∧ js "transcript" ∈ ticketCommands.
Proof. split; [name_ok|]. unfold ticketCommands. set_solver. Qed.

(** The steps of a manual transcript, by button or by command, whatever the
    table holds. *)
Ltac transcript_steps :=
  unfold interactionCreate, ticketAction;
  apply steps_bind; [tc_solve|steps_auto|intros ?];
  apply steps_tryCatch; [tc_solve| |steps_auto];
  rewrite onButton_wellformed by apply transcript_names;
  apply steps_bind; [tc_solve|steps_auto|intros [?|]]; [|steps_auto];
  apply steps_bind; [tc_solve|steps_auto|intros ?];
  rewrite buttonAction_transcript; steps_auto.

Ltac transcript_command_steps :=
  unfold interactionCreate, ticketAction;
  apply steps_bind; [tc_solve|steps_auto|intros ?];
  apply steps_tryCatch; [tc_solve| |steps_auto];
  rewrite bool_decide_eq_true_2 by apply transcript_names;
  unfold when, onTicketCommand;
  apply steps_bind; [tc_solve|steps_auto|intros [?|]]; [|steps_auto];
  destruct (negb _); [steps_auto|];
  rewrite commandAction_transcript; steps_auto.

Section ManualTranscript.
Context (env : Env) (via : Via) (t : Row) (user : User)
        (member : option Member) (channel : Channel).

Lemma transcript_keeps_db : steps (keeps db) (interactionCreate env
     (ticketAction via (js "transcript") t user member channel)).
Proof.
  destruct via; [transcript_steps|transcript_command_steps].
Qed.

Lemma transcript_keeps_db_seq : steps (keeps db_seq) (interactionCreate env
     (ticketAction via (js "transcript") t user member channel)).
Proof.
  destruct via; [transcript_steps|transcript_command_steps].
Qed.

Lemma transcript_keeps_cache : steps (keeps cache) (interactionCreate env
     (ticketAction via (js "transcript") t user member channel)).
Proof.
  destruct via; [transcript_steps|transcript_command_steps].
Qed.

Lemma transcript_keeps_timers : steps (keeps timers) (interactionCreate env
     (ticketAction via (js "transcript") t user member channel)).
Proof.
  destruct via; [transcript_steps|transcript_command_steps].
Qed.

Lemma transcript_harmless : steps (logs harmless) (interactionCreate env
     (ticketAction via (js "transcript") t user member channel)).
Proof.
  destruct via; [transcript_steps|transcript_command_steps].
Qed.
End ManualTranscript.

Ltac in_list := rewrite ?elem_of_app, ?elem_of_cons; auto 12.

Lemma transcriptCommand_manual env user channel :
  transcriptCommand env user channel
  = manualTranscript env user channel
      (embedInfo (js "Transcript") (js "Transcript wordt gemaakt..."))
      (embedError (js "DM mislukt")
         (js "Kon DM niet sturen; transcript opgeslagen op server")).
Proof. reflexivity. Qed.

Lemma transcriptButton_manual env t user member channel w :
  isStaff env member = true →
  List.find (λ c, bool_decide (ch_id c = channel_id t)) (cache w) = Some channel →
  transcriptButton env t user member w
  = manualTranscript env user channel
      (embedInfo (js "Transcript") (js "Transcript wordt gemaakt en verzonden..."))
      (embedError (js "DM mislukt")
         (js "Kon DM niet sturen. Transcript is opgeslagen op de server.")) w.
Proof.
  intros Hstaff Hfind. unfold transcriptButton. rewrite Hstaff. cbn [negb].
  unfold bind at 1, cacheGet, bind at 1, get, ret at 1. cbn [fst snd].
  by rewrite Hfind.
Qed.

Lemma swallow_followUp_run env p w :
  ∃ w' es, swallow (followUp env p) w = (Ret tt, w')
    ∧ log w' = log w ++ es ∧ files w' = files w.
Proof.
  unfold swallow, tryCatch, followUp, call, bind, get, emit, modify, ret, throw.
  simpl. destruct (replied w || deferred w); simpl.
  - destruct (succeeds env _); do 2 eexists; (split; [reflexivity|]); by simpl.
  - exists w, []. by rewrite app_nil_r.
Qed.

Section ManualRun.
Context (env : Env) (user : User) (channel : Channel) (history : list Message).
Context (Hserves : servesHistory env (ch_id channel) history).
Context (Hnodup : NoDup (msg_id <$> history)).
Context (Hids : Forall (λ m, truthy (msg_id m) = true) history).
Context (Hfuel : (length history / 100 < fuel env)%nat).
Context (Hreply : ∀ p, succeeds env (Reply p) = true).

(** When the first reply goes through, the manual transcript writes the
    file and tries one delivery: to the staff log if one is configured (and
    found), to the invoker otherwise. *)
Lemma manualTranscript_run started dmFailed w :
  replied w = false → deferred w = false →
  ∃ w' es p,
    manualTranscript env user channel started dmFailed w = (Ret tt, w')
    ∧ files w' !! transcriptPath env channel
      = Some (transcriptText env channel history)
    ∧ log w' = log w ++ es
    ∧ WriteFile (transcriptPath env channel) ∈ es
    ∧ p_file p = Some (transcriptPath env channel)
    ∧ (truthyOpt (STAFF_LOG_CHANNEL_ID env) = false → UserSend (u_id user) p ∈ es)
    ∧ (∀ logCh, truthyOpt (STAFF_LOG_CHANNEL_ID env) = true →
         logChannelOf env w = Some logCh → ChannelSend (ch_id logCh) p ∈ es).
Proof using Hserves Hnodup Hids Hfuel Hreply.
  intros Hrep Hdef. unfold manualTranscript.
  unfold bind at 1, reply, bind at 1, get. cbn [fst snd]. rewrite Hrep, Hdef.
  cbn [orb]. unfold bind at 1, call, bind at 1, emit, modify. cbn [fst snd].
  rewrite Hreply. unfold ret at 1.
  set (w1 := with_replied true _).
  destruct (makeTranscript_run env channel history Hserves Hnodup Hids Hfuel w1)
    as (w2 & Hrun & Hlog2 & Hfiles2 & _ & _ & Hcache2 & _ & Hrep2 & _).
  unfold tryCatch at 1, bind at 1. rewrite Hrun. cbv zeta.
  set (p := embedsFile _ (transcriptPath env channel)).
  assert (log w2 = log w ++ [Reply (ephemeral started)]
                    ++ fetchTrace channel history
                    ++ [WriteFile (transcriptPath env channel)]) as Hlog.
  { rewrite Hlog2. subst w1. simpl. by rewrite <- app_assoc. }
  assert (files w2 !! transcriptPath env channel
          = Some (transcriptText env channel history)) as Hfile
    by (by rewrite Hfiles2, lookup_insert_eq).
  assert (cache w2 = cache w) as Hcache by (by rewrite Hcache2).
  clear Hlog2 Hfiles2 Hcache2 Hrun. clearbody w1.
  destruct (truthyOpt (STAFF_LOG_CHANNEL_ID env)) eqn:Hlogged.
  - (* to the staff log *)
    unfold sendToStaffLog. rewrite Hlogged.
    unfold bind at 1, getLogChannel, bind at 1, cacheGet, bind at 1, get, ret.
    cbn [fst snd]. rewrite Hcache. unfold logChannelOf.
    assert (∀ logCh,
      ∃ w' es p0,
        (let (r0, w'0) := swallow (channelSend env logCh p) w2 in
         match r0 with
         | Ret a => (Ret a, w'0)
         | Throw => followUp env (ephemeral (embedError (js "Fout")
                      (js "Fout bij het maken van transcript"))) w'0
         | Diverge => (Diverge, w'0)
         end) = (Ret (), w')
        ∧ files w' !! transcriptPath env channel
          = Some (transcriptText env channel history)
        ∧ log w' = log w ++ es
        ∧ WriteFile (transcriptPath env channel) ∈ es
        ∧ p_file p0 = Some (transcriptPath env channel)
        ∧ (true = false → UserSend (u_id user) p0 ∈ es)
        ∧ ∀ logCh0, true = true → Some logCh = Some logCh0 →
            ChannelSend (ch_id logCh0) p0 ∈ es) as Hsend.
    { intros logCh.
      unfold swallow, tryCatch, channelSend, call, bind, emit, modify, ret, throw.
      cbn [fst snd].
      exists (with_log (log w2 ++ [ChannelSend (ch_id logCh) p]) w2),
        ([Reply (ephemeral started)] ++ fetchTrace channel history
           ++ [WriteFile (transcriptPath env channel)]
           ++ [ChannelSend (ch_id logCh) p]), p.
      split; [by destruct (succeeds env _)|].
      split; [done|]. split; [simpl; rewrite Hlog, <- !app_assoc; done|].
      split; [in_list|]. split; [done|]. split; [done|].
      intros c _ [= <-]. in_list. }
    destruct (List.find _ (cache w)) as [logCh|]; [apply Hsend|].
    destruct (fetchChannel env _) as [logCh|]; [apply Hsend|].
    exists w2, ([Reply (ephemeral started)] ++ fetchTrace channel history
         ++ [WriteFile (transcriptPath env channel)]), p.
    split; [done|]. split; [done|]. split; [done|].
    split; [in_list|]. done.
  - (* to the invoker *)
    unfold tryCatch at 1, userSend, call, bind at 1, emit, modify.
    cbn [fst snd]. set (w3 := with_log _ w2).
    assert (∃ w4 es4, (if succeeds env (UserSend (u_id user) p)
                        then ret () else throw) w3 = (Ret tt, w4)
                       ∧ log w4 = log w3 ++ es4 ∧ files w4 = files w3
              ∨ (if succeeds env (UserSend (u_id user) p)
                 then ret () else throw) w3 = (Throw, w3)
                ∧ swallow (followUp env (ephemeral dmFailed)) w3 = (Ret tt, w4)
                ∧ log w4 = log w3 ++ es4 ∧ files w4 = files w3)
      as (w4 & es4 & Hcases).
    { destruct (succeeds env _).
      - exists w3, []. left. by rewrite app_nil_r.
      - destruct (swallow_followUp_run env (ephemeral dmFailed) w3)
          as (w4 & es4 & ? & ? & ?).
        exists w4, es4. by right. }
    exists w4, ([Reply (ephemeral started)] ++ fetchTrace channel history
           ++ [WriteFile (transcriptPath env channel)]
           ++ UserSend (u_id user) p :: es4), p.
    assert (log w4 = log w3 ++ es4 ∧ files w4 = files w3) as [Hlog4 Hfiles4]
      by (destruct Hcases as [(_ & ? & ?)|(_ & _ & ? & ?)]; done).
    split.
    { destruct Hcases as [(-> & _)|(-> & -> & _)]; done. }
    split; [by rewrite Hfiles4|].
    split; [rewrite Hlog4; subst w3; simpl; rewrite Hlog, <- !app_assoc; done|].
    split; [in_list|]. split; [done|]. split; [intros _; in_list|done].
Qed.
End ManualRun.

(** C9: the manual Transcript action, by button or by command, whatever the
    status of the ticket and whoever invokes it, leaves the table as it is
    (no row is written, inserted or renumbered), deletes no channel (the
    cache is as before) and arms no timer; every effect it has is harmless
    in that sense.  Invoked by a staff member on a ticket whose channel is
    in the cache, when the first reply goes through and the history can be
    paged, it writes the transcript file and attempts one delivery with the
    file attached: to the staff log when one is configured and found, to the
    invoker when none is configured. *)
Theorem manual_transcript_frame env w via t user member channel :
  let w' := (interactionCreate env
               (ticketAction via (js "transcript") t user member channel) w).2 in
  (db w' = db w ∧ db_seq w' = db_seq w ∧ cache w' = cache w ∧ timers w' = timers w
   ∧ ∃ es, log w' = log w ++ es ∧ Forall (λ e, harmless e = true) es)
  ∧ (∀ history,
       ticketOf w t →
       ch_id channel = channel_id t →
       List.find (λ c, bool_decide (ch_id c = channel_id t)) (cache w) = Some channel →
       isStaff env member = true →
       (∀ p, succeeds env (Reply p) = true) →
       servesHistory env (ch_id channel) history →
       NoDup (msg_id <$> history) →
       Forall (λ m, truthy (msg_id m) = true) history →
       (length history / 100 < fuel env)%nat →
       files w' !! transcriptPath env channel
       = Some (transcriptText env channel history)
       ∧ ∃ es p, log w' = log w ++ es
           ∧ WriteFile (transcriptPath env channel) ∈ es
           ∧ p_file p = Some (transcriptPath env channel)
           ∧ (truthyOpt (STAFF_LOG_CHANNEL_ID env) = false →
              UserSend (u_id user) p ∈ es)
           ∧ (∀ logCh, truthyOpt (STAFF_LOG_CHANNEL_ID env) = true →
                logChannelOf env w = Some logCh →
                ChannelSend (ch_id logCh) p ∈ es)).
Proof.
  intros w'. split.
  - subst w'. repeat split.
    + apply transcript_keeps_db.
    + apply transcript_keeps_db_seq.
    + apply transcript_keeps_cache.
    + apply transcript_keeps_timers.
    + apply transcript_harmless.
  - intros history Ht Hch Hfind Hstaff Hreply Hserves Hnodup Hids Hfuel.
    destruct transcript_names as [Hname Hcmd]. subst w'.
    rewrite interactionCreate_action by done.
    assert (∃ started dmFailed,
      actionBody env via (js "transcript") t user member channel w (fresh w)
      = manualTranscript env user channel started dmFailed (fresh w))
      as (started & dmFailed & Hbody).
    { destruct via; simpl.
      - rewrite buttonAction_transcript. do 2 eexists.
        by apply transcriptButton_manual.
      - rewrite Hstaff. simpl. rewrite commandAction_transcript.
        do 2 eexists. by rewrite transcriptCommand_manual. }
    destruct (manualTranscript_run env user channel history Hserves Hnodup Hids
                Hfuel Hreply started dmFailed (fresh w) eq_refl eq_refl)
      as (w' & es & p & Hrun & Hfile & Hlog & Hwrite & Hp & Hdm & Hstafflog).
    unfold tryCatch. rewrite Hbody, Hrun. simpl.
    split; [done|]. exists es, p. done.
Qed.

(** The staff member [900] presses Transcript on ticket 1, no staff log being
    configured. *)
Lemma manual_transcript_frame_witness :
  let w' := (interactionCreate sampleEnv
               (ticketAction ViaButton (js "transcript") sampleRow sampleUser
                  (Some sampleStaff) sampleChannel) sampleWorld).2 in
  db w' = db sampleWorld
  ∧ files w' !! transcriptPath sampleEnv sampleChannel
    = Some (transcriptText sampleEnv sampleChannel sampleMessages).
Proof.
  intros w'.
  pose proof (manual_transcript_frame sampleEnv sampleWorld ViaButton sampleRow
                sampleUser (Some sampleStaff) sampleChannel) as [Hframe Hrun].
  split; [apply Hframe|].
  apply (Hrun sampleMessages).
  - split; reflexivity.
  - reflexivity.
  - reflexivity.
  - reflexivity.
  - intros p. reflexivity.
  - intros limit before. reflexivity.
  - apply (bool_decide_unpack _). vm_compute. exact I.
  - repeat constructor.
  - vm_compute. lia.
Defined.

(** *** The pending choice *)

Lemma genericError_keeps_pending env :
  steps (keeps pendingCategoryForUser) (genericError env).
Proof. steps_auto. Qed.

Lemma createTicket_keeps_pending env user categoryIndex topic :
  steps (keeps pendingCategoryForUser)
        (createTicketChannelFromChoice env user categoryIndex topic).
Proof. steps_auto. Qed.

(** An error reply in a world where nothing has been answered yet. *)
Lemma reject_run_at env e w0 :
  replied w0 = false → deferred w0 = false →
  e_kind e = Error →
  let w' := (tryCatch (reply env (ephemeral e)) (genericError env) w0).2 in
  db w' = db w0 ∧ db_seq w' = db_seq w0 ∧ cache w' = cache w0
  ∧ ∃ p es, isErrorReply (Reply p) = true
      ∧ log w' = log w0 ++ Reply p :: es
      ∧ Forall (λ e, isErrorReply e = true) es.
Proof.
  intros Hrep Hdef He w'.
  assert (∀ {X} (f : World → X),
    steps (keeps f) (genericError env) →
    steps (keeps f) (reply env (ephemeral e)) → f w' = f w0) as Hkeep.
  { intros X f Hg Hr. subst w'. rewrite tryCatch_keeps by done. apply Hr. }
  split; [apply Hkeep; steps_auto|].
  split; [apply Hkeep; steps_auto|].
  split; [apply Hkeep; steps_auto|].
  exists (ephemeral e). subst w'.
  unfold tryCatch, reply, bind at 1, get. cbn [fst snd]. rewrite Hrep, Hdef.
  cbn [orb]. unfold bind at 1, call, bind at 1, emit, modify. cbn [fst snd].
  destruct (succeeds env _).
  - exists []. simpl. split; [by rewrite He|]. by split.
  - unfold throw at 1.
    destruct (genericError_errors env
      (with_log (log w0 ++ [Reply (ephemeral e)]) w0)) as (es & Hes & Hall).
    exists es. split; [by simpl; rewrite He|]. split; [|done].
    rewrite Hes. simpl. by rewrite <- app_assoc.
Qed.

(** C8: selecting a category puts the choice in the map under the
    requester's id, in place of an earlier one; submitting the topic modal
    takes the requester's entry out of the map; and when no entry was pending
    the submission is answered by an error reply, the table, its row counter
    and the channels being as before. *)
Theorem pending_choice_handoff env w user chosen topic_input :
  let ws := (interactionCreate env
               (StringSelectMenu (js "ticket_category_select") user chosen) w).2 in
  let wm := (interactionCreate env
               (ModalSubmit (js "ticket_topic_modal") user topic_input) w).2 in
  pendingCategoryForUser ws = <[u_id user := chosen]> (pendingCategoryForUser w)
  ∧ pendingCategoryForUser ws !! u_id user = Some chosen
  ∧ pendingCategoryForUser wm = delete (u_id user) (pendingCategoryForUser w)
  ∧ pendingCategoryForUser wm !! u_id user = None
  ∧ (pendingCategoryForUser w !! u_id user = None →
     db wm = db w ∧ db_seq wm = db_seq w ∧ cache wm = cache w
     ∧ ∃ p es, isErrorReply (Reply p) = true
         ∧ log wm = log w ++ Reply p :: es
         ∧ Forall (λ e, isErrorReply e = true) es).
Proof.
  intros ws wm.
  assert (pendingCategoryForUser ws
          = <[u_id user := chosen]> (pendingCategoryForUser w)) as Hs.
  { subst ws. unfold interactionCreate, bind at 1, modify.
    rewrite tryCatch_keeps by apply genericError_keeps_pending.
    rewrite bool_decide_eq_true_2 by done. unfold when, onCategorySelect.
    rewrite bind_keeps by (intros; steps_auto). done. }
  assert (pendingCategoryForUser wm
          = delete (u_id user) (pendingCategoryForUser w)) as Hm.
  { subst wm. unfold interactionCreate, bind at 1, modify.
    rewrite tryCatch_keeps by apply genericError_keeps_pending.
    rewrite bool_decide_eq_true_2 by done. unfold when, onTopicModal.
    unfold bind at 1, get. cbn [fst snd].
    rewrite bind_keeps; [done|]. intros _. steps_auto. }
  split; [done|]. split; [by rewrite Hs, lookup_insert_eq|].
  split; [done|]. split; [by rewrite Hm, lookup_delete_eq|].
  intros Hnone.
  set (w0 := with_pending (delete (u_id user) (pendingCategoryForUser w)) (fresh w)).
  assert (∃ e, e_kind e = Error
            ∧ wm = (tryCatch (reply env (ephemeral e)) (genericError env) w0).2)
    as (e & He & ->).
  { eexists. split; [|subst wm].
    2:{ unfold interactionCreate, bind at 1, modify.
        rewrite (bool_decide_eq_true_2 (js "ticket_topic_modal" = _)) by done.
        unfold when, onTopicModal, tryCatch at 1, bind at 1, get. cbn [fst snd].
        unfold bind at 1, modify.
        cbn [fst snd pendingCategoryForUser with_deferred with_replied].
        rewrite Hnone. reflexivity. }
    reflexivity. }
  exact (reject_run_at env e w0 eq_refl eq_refl He).
Qed.

(** *** Ticket creation *)

Lemma bind_Ret_inv {A B} (m : M A) (k : A → M B) w b w' :
  bind m k w = (Ret b, w') →
  ∃ a w1, m w = (Ret a, w1) ∧ k a w1 = (Ret b, w').
Proof.
  unfold bind. destruct (m w) as [[a| |] w1]; [eauto|done..].
Qed.

Lemma categoryAt_None categoryIndex :
  categoryAt categoryIndex = None
  ↔ categoryIndex = None
    ∨ ∃ i, categoryIndex = Some i ∧ (i < 0 ∨ 17 ≤ i)%Z.
Proof.
  unfold categoryAt. destruct categoryIndex as [i|]; [|by split; auto].
  destruct (Z.leb_spec 0 i) as [Hi|Hi].
  - rewrite lookup_ge_None. change (length CATEGORIES) with 17%nat. split.
    + intros H. right. exists i. split; [done|]. lia.
    + intros [?|(j & [= <-] & H)]; [done|]. lia.
  - split; [|done]. intros _. right. exists i. split; [done|]. lia.
Qed.

Lemma categoryNameOf_fallback categoryIndex :
  categoryAt categoryIndex = None →
  categoryNameOf categoryIndex = js "Overige Vragen".
Proof. unfold categoryNameOf. by intros ->. Qed.

Lemma categoryNameOf_7 : categoryNameOf (Some 7%Z) = js "Overige Vragen".
Proof. reflexivity. Qed.

Lemma getOrCreateCategoryByName_Ret env name w parent w1 :
  getOrCreateCategoryByName env name w = (Ret (Some parent), w1) →
  db w1 = db w ∧ db_seq w1 = db_seq w
  ∧ parent ∈ cache w1 ∧ ch_name parent = name ∧ ch_type parent = GuildCategory.
Proof.
  unfold getOrCreateCategoryByName, bind at 1, get. cbn [fst snd].
  destruct (List.find _ _) as [c|] eqn:Hfind.
  - intros [= -> <-]. apply List.find_some in Hfind as [Hin Hc].
    apply list_elem_of_In in Hin. unfold isCategoryNamed in Hc.
    destruct (ch_type parent); [done|]. by apply bool_decide_eq_true in Hc.
  - unfold tryCatch, channelsCreate, call, bind, get, emit, modify, ret, throw.
    cbn [fst snd].
    destruct (succeeds env _); [|by intros [=]].
    intros [= <- <-]. cbn. repeat split. apply elem_of_app. right.
    apply list_elem_of_singleton. done.
Qed.

Global Instance cacheGrows_preorder : PreOrder cacheGrows.
Proof.
  split.
  - intros w c Hc. by exists c.
  - intros w1 w2 w3 H12 H23 c Hc.
    destruct (H12 c Hc) as (c2 & Hc2 & Hid2 & Hname2 & Htype2).
    destruct (H23 c2 Hc2) as (c3 & Hc3 & Hid3 & Hname3 & Htype3).
    exists c3. split; [done|]. split; [congruence|]. split; congruence.
Qed.

Lemma keeps_cache_grows {A} (m : M A) : steps (keeps cache) m → steps cacheGrows m.
Proof. intros H w c Hc. exists c. by rewrite (H w). Qed.

Lemma sendToStaffLog_keeps_db env p : steps (keeps db) (sendToStaffLog env p).
Proof. steps_auto. Qed.

Lemma sendToStaffLog_keeps_cache env p : steps (keeps cache) (sendToStaffLog env p).
Proof. steps_auto. Qed.

Lemma channelsCreate_Ret env name type parent overwrites w c w2 :
  channelsCreate env name type parent overwrites w = (Ret c, w2) →
  c = mkChannel (newChannelId env (length (log w))) name type parent overwrites
  ∧ cache w2 = cache w ++ [c] ∧ db w2 = db w ∧ db_seq w2 = db_seq w.
Proof.
  unfold channelsCreate, call, bind, get, emit, modify, ret, throw. cbn [fst snd].
  destruct (succeeds env _); [|by intros [=]]. by intros [= <- <-].
Qed.

Lemma overwriteCreate_grows env channel target :
  steps cacheGrows (swallow (overwriteCreate env channel target)).
Proof.
  intros w c Hc.
  unfold swallow, tryCatch, overwriteCreate, call, bind, emit, modify, ret, throw.
  cbn [fst snd]. destruct (succeeds env _); cbn [fst snd]; [|by exists c].
  eexists. split.
  - cbn. apply list_elem_of_fmap. exists c. split; [reflexivity|done].
  - by destruct (bool_decide _).
Qed.

Lemma overwriteCreate_keeps_db env channel target :
  steps (keeps db) (swallow (overwriteCreate env channel target)).
Proof. steps_auto. Qed.

Lemma overwriteCreate_keeps_db_seq env channel target :
  steps (keeps db_seq) (swallow (overwriteCreate env channel target)).
Proof. steps_auto. Qed.

Lemma insertTicketRow_Ret env guildId channelId ownerId cat topic w id w4 :
  insertTicketRow env guildId channelId ownerId cat topic w = (Ret id, w4) →
  id = (db_seq w + 1)%N
  ∧ db w4 = db w ++ [mkRow id guildId channelId ownerId None (js "open")
                       (Some cat) (orNull topic) (now env)]
  ∧ cache w4 = cache w.
Proof.
  unfold insertTicketRow, bind, get, emit, modify, ret. cbn [fst snd].
  by intros [= <- <-].
Qed.

Lemma candidate_prefix base k : base `prefix_of` candidate base k.
Proof. destruct k; [done|]. by eexists. Qed.

Lemma channelBaseOf_prefix categoryName username nickname :
  (normalizeForName categoryName ++ [dash])
    `prefix_of` channelBaseOf categoryName username nickname.
Proof.
  unfold channelBaseOf. destruct (_ && _).
  - exists (username ++ dash :: nickname). by rewrite <- !app_assoc.
  - exists username. by rewrite <- !app_assoc.
Qed.

(** C10: when the category index is out of range for the 17 entries of the
    catalog, or is [NaN], the category used is ['Overige Vragen'] and ticket
    creation goes on exactly as it does for index 7, also from the topic
    modal whose pending choice parses to that index; when it returns, the
    table has gained one open, unclaimed row for the created channel whose
    category is ['Overige Vragen'], and the created text channel lies under
    a category channel of that name and is itself named after it. *)
Theorem out_of_range_category_falls_back env user categoryIndex topic w :
  categoryAt categoryIndex = None →
  categoryNameOf categoryIndex = js "Overige Vragen"
  ∧ createTicketChannelFromChoice env user categoryIndex topic
    = createTicketChannelFromChoice env user (Some 7%Z) topic
  ∧ (∀ chosen topic_input,
       parseInt chosen = categoryIndex →
       openTicket env user chosen topic_input
       = openTicket env user (js "7") topic_input)
  ∧ ∀ created ticketId w',
      createTicketChannelFromChoice env user categoryIndex topic w
      = (Ret (created, ticketId), w') →
      (∃ r, db w' = db w ++ [r]
         ∧ ticket_id r = ticketId ∧ channel_id r = ch_id created
         ∧ owner_id r = u_id user ∧ category r = Some (js "Overige Vragen")
         ∧ status r = js "open" ∧ claimed_by r = None)
      ∧ (∃ parent, parent ∈ cache w'
           ∧ ch_parent created = Some (ch_id parent)
           ∧ ch_name parent = js "Overige Vragen"
           ∧ ch_type parent = GuildCategory)
      ∧ ch_type created = GuildText
      ∧ js "overige-vragen-" `prefix_of` ch_name created.
Proof.
  intros Hout. pose proof (categoryNameOf_fallback _ Hout) as Hname.
  assert (∀ topic0,
    createTicketChannelFromChoice env user categoryIndex topic0
    = createTicketChannelFromChoice env user (Some 7%Z) topic0) as Hsame.
  { intros topic0. unfold createTicketChannelFromChoice.
    by rewrite Hname, categoryNameOf_7. }
  split; [done|]. split; [done|]. split.
  { intros chosen topic_input Hparse. unfold openTicket.
    rewrite Hparse, Hsame. reflexivity. }
  intros created ticketId w'. unfold createTicketChannelFromChoice.
  rewrite Hname. cbv zeta. intros H.
  apply bind_Ret_inv in H as ([parent|] & w1 & Hparent & H); [|done].
  apply getOrCreateCategoryByName_Ret in Hparent
    as (Hdb1 & Hseq1 & Hin1 & Hpname & Hptype).
  apply bind_Ret_inv in H as (w1' & w1'' & [= <- <-] & H).
  destruct (uniqueChannelName _ _) as [channelName|] eqn:Hunique; [|done].
  apply bind_Ret_inv in H as (created0 & w2 & Hcreate & H).
  apply channelsCreate_Ret in Hcreate as (Hcreated & Hcache2 & Hdb2 & Hseq2).
  apply bind_Ret_inv in H as ([] & w3 & Hstaff & H).
  assert (db w3 = db w2 ∧ cacheGrows w2 w3) as [Hdb3 Hcache3].
  { destruct (List.find _ (roles env)) as [staffRole|].
    - split.
      + pose proof (overwriteCreate_keeps_db env created0 (role_id staffRole) w2) as Hk.
        unfold keeps in Hk. by rewrite Hstaff in Hk.
      + pose proof (overwriteCreate_grows env created0 (role_id staffRole) w2) as Hg.
        by rewrite Hstaff in Hg.
    - injection Hstaff as <-. split; [done|reflexivity]. }
  apply bind_Ret_inv in H as (ticketId0 & w4 & Hinsert & H).
  apply insertTicketRow_Ret in Hinsert as (Hid & Hdb4 & Hcache4).
  apply bind_Ret_inv in H as ([] & w5 & Hsend & H).
  assert (db w5 = db w4 ∧ cache w5 = cache w4) as [Hdb5 Hcache5].
  { unfold channelSend, call, bind, emit, modify, ret, throw in Hsend.
    cbn [fst snd] in Hsend. destruct (succeeds env _); [|done].
    by injection Hsend as <-. }
  apply bind_Ret_inv in H as ([] & w6 & Hlogged & H).
  injection H as <- <- <-.
  match type of Hlogged with
  | sendToStaffLog _ ?p _ = _ =>
      pose proof (sendToStaffLog_keeps_db env p w5) as Hdb6;
      pose proof (sendToStaffLog_keeps_cache env p w5) as Hcache6
  end.
  rewrite Hlogged in Hdb6, Hcache6. unfold keeps in Hdb6, Hcache6. cbn [snd] in *.
  split; [|split; [|split]].
  - eexists. split; [by rewrite Hdb6, Hdb5, Hdb4, Hdb3, Hdb2, Hdb1|].
    by subst created0.
  - destruct (Hcache3 parent) as (parent' & Hin3 & Hid3 & Hname3 & Htype3).
    { rewrite Hcache2. apply elem_of_app. by left. }
    exists parent'. rewrite Hcache6, Hcache5, Hcache4.
    split; [done|]. subst created0. cbn. rewrite Hid3.
    split; [done|]. split; congruence.
  - by subst created0.
  - subst created0. cbn.
    apply uniqueChannelName_returns_candidate in Hunique as (k & ->).
    etrans; [|apply candidate_prefix].
    etrans; [|apply channelBaseOf_prefix].
    exists []. vm_compute. reflexivity.
Qed.

(** ** Concrete runs *)




(** The closed ticket 1 is claimed by the staff member [900]. *)
Lemma claim_unclaim_whatever_status_witness :
  let w' := (interactionCreate sampleEnv
               (ticketAction ViaButton (js "claim") sampleClosedRow sampleUser
                  (Some sampleStaff) sampleChannel) sampleClosedWorld).2 in
  ∃ m r, Some sampleStaff = Some m ∧ selectById 1 (db w') = Some r
    ∧ claimed_by r = Some (m_id m) ∧ status r = js "closed".
Proof.
  intros w'.
  destruct (claim_unclaim_whatever_status sampleEnv sampleClosedWorld ViaButton
              (js "claim") sampleClosedRow sampleUser (Some sampleStaff)
              sampleChannel) as (_ & _ & Hclosed).
  - left. reflexivity.
  - split; reflexivity.
  - reflexivity.
  - destruct Hclosed as [Hclaim _]; [reflexivity..|].
    apply Hclaim; reflexivity.
Defined.


(** A topic is submitted while no choice is pending. *)
Lemma pending_choice_handoff_witness :
  let wm := (interactionCreate sampleEnv
               (ModalSubmit (js "ticket_topic_modal") sampleUser (js "hallo"))
               sampleWorld).2 in
  db wm = db sampleWorld ∧ cache wm = cache sampleWorld.
Proof.
  intros wm.
  destruct (pending_choice_handoff sampleEnv sampleWorld sampleUser (js "2")
              (js "hallo")) as (_ & _ & _ & _ & Hrejected).
  destruct Hrejected as (Hdb & _ & Hcache & _); [reflexivity|].
  split; [exact Hdb|exact Hcache].
Defined.

(** A ticket is created from the pending value [abc]. *)
Lemma out_of_range_category_falls_back_witness :
  parseInt (js "abc") = None
  ∧ ∃ created ticketId w',
      createTicketChannelFromChoice sampleEnv sampleUser (parseInt (js "abc"))
        None sampleWorld = (Ret (created, ticketId), w')
      ∧ (∃ r, db w' = db sampleWorld ++ [r]
           ∧ category r = Some (js "Overige Vragen")
           ∧ channel_id r = ch_id created)
      ∧ js "overige-vragen-" `prefix_of` ch_name created.
Proof.
  split; [reflexivity|].
  destruct (out_of_range_category_falls_back sampleEnv sampleUser
              (parseInt (js "abc")) None sampleWorld) as (_ & _ & _ & Hcreated).
  - reflexivity.
  - destruct (createTicketChannelFromChoice sampleEnv sampleUser
                (parseInt (js "abc")) None sampleWorld)
      as [[[created ticketId]| |] w'] eqn:Hrun.
    + destruct (Hcreated created ticketId w' eq_refl)
        as ((r & Hdb & _ & Hch & _ & Hcat & _) & _ & _ & Hname).
      exists created, ticketId, w'. split; [reflexivity|].
      split; [|exact Hname]. exists r. by repeat split.
    + vm_compute in Hrun. discriminate Hrun.
    + vm_compute in Hrun. discriminate Hrun.
Defined.

(** The scenario of the specification: category 2, topic given. *)
Example open_ticket_scenario :
  let w1 := (interactionCreate sampleEnv
               (StringSelectMenu (js "ticket_category_select") sampleUser (js "2"))
               sampleWorld).2 in
  let w2 := (interactionCreate sampleEnv
               (ModalSubmit (js "ticket_topic_modal") sampleUser
                  (js "banned by mistake")) w1).2 in
  last (db w2)
  = Some (mkRow 2 (js "1") (js "c3") (js "500") None (js "open")
            (Some (js "Unban Aanvraag Ingame")) (Some (js "banned by mistake")) 1000)
  ∧ ch_name <$> last (cache w2) = Some (js "unban-aanvraag-ingame-jan_jansen")
  ∧ pendingCategoryForUser w2 !! js "500" = None.
Proof. vm_compute. repeat split. Qed.

(** A pending choice that is no index of the catalog. *)
Example open_ticket_out_of_range :
  let w1 := (interactionCreate sampleEnv
               (StringSelectMenu (js "ticket_category_select") sampleUser (js "99"))
               sampleWorld).2 in
  let w2 := (interactionCreate sampleEnv
               (ModalSubmit (js "ticket_topic_modal") sampleUser []) w1).2 in
  (category <$> last (db w2)) = Some (Some (js "Overige Vragen"))
  ∧ ch_name <$> last (cache w2) = Some (js "overige-vragen-jan_jansen-1").
Proof. vm_compute. repeat split. Qed.

Example parseInt_samples :
  parseInt (js "2") = Some 2%Z ∧ parseInt (js " 16x") = Some 16%Z
  ∧ parseInt (js "-1") = Some (-1)%Z ∧ parseInt (js "") = None
  ∧ categoryAt (parseInt (js "17")) = None
  ∧ categoryAt (parseInt (js "-1")) = None.
Proof. vm_compute. repeat split. Qed.

(** 250 messages are fetched in three pages, 100 + 100 + 50, and rendered
    oldest first. *)
Example transcript_250 :
  let w' := (makeTranscript sampleEnv250 sampleChannel sampleWorld).2 in
  log w' = [ MessagesFetch (js "700") 100 None;
             MessagesFetch (js "700") 100 (Some (js "151"));
             MessagesFetch (js "700") 100 (Some (js "51"));
             WriteFile (js "/app/transcripts/700-transcript.txt") ]
  ∧ files w' !! js "/app/transcripts/700-transcript.txt"
    = Some (transcriptText sampleEnv250 sampleChannel (numberedMessages 250))
  ∧ take 20 (transcriptText sampleEnv250 sampleChannel (numberedMessages 250))
    = js "Transcript van #over".
Proof. vm_compute. repeat split. Qed.

Example transcript_sample :
  transcriptText sampleEnv sampleChannel sampleMessages
  = js "Transcript van #overige-vragen-jan_jansen" ++ [newline; newline]
    ++ js "[T1000] jan#0001: banned by mistake" ++ [newline]
    ++ js "[T2000] Onbekend: hallo" ++ [newline]
    ++ js "[T3000] staff#0002: zie bijlage" ++ [newline]
    ++ js "    " ++ paperclip ++ js " Attachment: https://cdn.example/a.png" ++ [newline]
    ++ js "    " ++ paperclip ++ js " Attachment: https://cdn.example/b.png" ++ [newline].
Proof. vm_compute. reflexivity. Qed.

(** * Further properties *)

(** ** Slugs *)

Lemma normalizeForName_chars s : Forall slugChar (normalizeForName s).
Proof.
  unfold normalizeForName. destruct (negb (truthy s)); [constructor|].
  apply dashRuns_slug, trim_Forall, stripSpecial_kept.
Qed.

Lemma slugChar_lower c : slugChar c → lowerUnit c = [c].
Proof.
  intros H. unfold lowerUnit.
  assert (isUpper c = false) as -> by bool_arith.
  assert ((c =? 304)%N = false) as -> by bool_arith.
  assert ((c =? 8490)%N = false) as -> by bool_arith. done.
Qed.

Lemma slugChar_kept c : slugChar c → keptByStrip c = true.
Proof. intros H. bool_arith. Qed.

Lemma slug_toLowerCase s : Forall slugChar s → toLowerCase s = s.
Proof.
  unfold toLowerCase. induction 1 as [|c s Hc _ IH]; [done|].
  cbn. change (mbind lowerUnit s) with (s ≫= lowerUnit).
  by rewrite (slugChar_lower c Hc), IH.
Qed.

Lemma slug_stripSpecial s : Forall slugChar s → stripSpecial s = s.
Proof.
  unfold stripSpecial. induction 1 as [|c s Hc _ IH]; [done|].
  simpl. by rewrite (slugChar_kept c Hc), IH.
Qed.

Lemma slug_dropSpace s : Forall slugChar s → dropSpace s = s.
Proof.
  destruct 1 as [|c s Hc _]; [done|]. simpl.
  by rewrite (proj1 (slugChar_plain c Hc)).
Qed.

Lemma slug_trim s : Forall slugChar s → trim s = s.
Proof.
  intros H. unfold trim. rewrite (slug_dropSpace s H).
  rewrite slug_dropSpace by (by apply Forall_reverse). apply reverse_involutive.
Qed.

Lemma slug_dashRuns inRun s : Forall slugChar s → dashRuns inRun s = s.
Proof.
  intros H. revert inRun. induction H as [|c s Hc _ IH]; intros inRun; [done|].
  simpl. by rewrite (proj1 (slugChar_plain c Hc)), IH.
Qed.

(** X1: a slug is its own slug. *)
Theorem normalizeForName_idempotent s :
  normalizeForName (normalizeForName s) = normalizeForName s.
Proof.
  pose proof (normalizeForName_chars s) as H.
  generalize dependent (normalizeForName s). intros t Ht.
  unfold normalizeForName. destruct t as [|c t]; [done|]. simpl negb. cbv iota.
  by rewrite slug_toLowerCase, slug_stripSpecial, slug_trim, slug_dashRuns.
Qed.

Lemma dashRuns_length inRun s : (length (dashRuns inRun s) ≤ length s)%nat.
Proof.
  revert inRun. induction s as [|c s IH]; intros inRun; simpl; [done|].
  destruct (isWhiteSpace c).
  - destruct inRun; simpl; [etrans; [apply IH|lia]|].
    specialize (IH true). lia.
  - simpl. specialize (IH false). lia.
Qed.

Lemma dropSpace_length s : (length (dropSpace s) ≤ length s)%nat.
Proof.
  induction s as [|c s IH]; simpl; [done|].
  destruct (isWhiteSpace c); simpl; lia.
Qed.

Lemma trim_length s : (length (trim s) ≤ length s)%nat.
Proof.
  unfold trim. rewrite length_reverse.
  etrans; [apply dropSpace_length|]. rewrite length_reverse.
  apply dropSpace_length.
Qed.

Lemma lowerUnit_kept_length c :
  (length (List.filter keptByStrip (lowerUnit c)) ≤ 1)%nat.
Proof.
  unfold lowerUnit. destruct (isUpper c).
  { cbn [List.filter]. destruct (keptByStrip _); simpl; lia. }
  destruct (c =? 304)%N; [vm_compute; lia|].
  destruct (c =? 8490)%N; [vm_compute; lia|].
  cbn [List.filter]. destruct (keptByStrip _); simpl; lia.
Qed.

Lemma strip_lower_length s :
  (length (stripSpecial (toLowerCase s)) ≤ length s)%nat.
Proof.
  unfold stripSpecial, toLowerCase. induction s as [|c s IH]; [done|].
  cbn. change (mbind lowerUnit s) with (s ≫= lowerUnit).
  rewrite List.filter_app, length_app.
  pose proof (lowerUnit_kept_length c). lia.
Qed.

(** X2: a slug is never longer than the text it is made from. *)
Theorem normalizeForName_length s :
  (length (normalizeForName s) ≤ length s)%nat.
Proof.
  unfold normalizeForName. destruct (negb (truthy s)); [simpl; lia|].
  etrans; [apply dashRuns_length|]. etrans; [apply trim_length|].
  apply strip_lower_length.
Qed.

(** ** Round trips between what the bot writes and what it reads back *)

(** [parseInt] reads back the numeral that [String] wrote. *)
Lemma parseInt_String_of_N n : parseInt (String_of_N n) = Some (Z.of_N n).
Proof.
  destruct (String_of_N_digits n) as (Hdig & Hne & Hval).
  unfold parseInt. destruct (String_of_N n) as [|c s]; [done|].
  apply Forall_cons in Hdig as [Hc _].
  assert (isWhiteSpace c = false) as Hws by bool_arith.
  assert ((c =? dash)%N = false) as Hdash by bool_arith.
  assert ((c =? 43)%N = false) as Hplus by bool_arith.
  cbn [dropSpace]. rewrite Hws, Hdash, Hplus, Hval. done.
Qed.

Lemma categoryAt_index i :
  categoryAt (Some (Z.of_N (N.of_nat i))) = CATEGORIES !! i.
Proof.
  unfold categoryAt. rewrite (proj2 (Z.leb_le _ _)) by lia.
  f_equal. lia.
Qed.

Lemma CATEGORIES_short :
  Forall (λ c, (100 <? length c)%nat = false ∧ truthy c = true) CATEGORIES.
Proof. repeat constructor. Qed.

(** X3: the value of every option of the category menu, read by [parseInt]
    as the modal handler does, names the category that the option shows. *)
Theorem dropdown_value_names_label i o :
  menu_options buildCategoryDropdown !! i = Some o →
  categoryNameOf (parseInt (opt_value o)) = opt_label o.
Proof.
  unfold buildCategoryDropdown. cbn [menu_options].
  rewrite list_lookup_imap. intros Ho.
  destruct (CATEGORIES !! i) as [c|] eqn:Hc; [|done].
  injection Ho as <-. cbn [opt_value opt_label].
  pose proof (proj1 (Forall_lookup _ _) CATEGORIES_short i c Hc) as [Hlen Hc'].
  rewrite Hlen. unfold categoryNameOf.
  rewrite parseInt_String_of_N, categoryAt_index, Hc.
  unfold orElse. by rewrite Hc'.
Qed.

(** X4: every button of the control row of a ticket, when pressed, reaches
    the action it is labelled with, on the ticket it was made for. *)
Theorem control_row_round_trip env ticketId k customId user member :
  buildTicketControlRow ticketId !! k = Some customId →
  ∃ action, ticketCommands !! k = Some action
    ∧ onButton env customId user member
      = (ticketRow <- getTicketById ticketId ;;
         match ticketRow with
         | None => reply env (ephemeral (embedError (js "Niet gevonden")
                     (js "Ticket niet gevonden in database")))
         | Some ticketRow =>
             channelObj <- cacheGet (channel_id ticketRow) ;;
             buttonAction env action ticketId ticketRow channelObj user member
         end).
Proof.
  intros Hk. unfold buildTicketControlRow in Hk.
  destruct k as [|[|[|[|k]]]]; [..|done]; apply (inj Some) in Hk; subst customId.
  - exists (js "claim"). split; [done|].
    exact (onButton_wellformed env (js "claim") ticketId user member ltac:(name_ok)).
  - exists (js "unclaim"). split; [done|].
    exact (onButton_wellformed env (js "unclaim") ticketId user member ltac:(name_ok)).
  - exists (js "close"). split; [done|].
    exact (onButton_wellformed env (js "close") ticketId user member ltac:(name_ok)).
  - exists (js "transcript"). split; [done|].
    exact (onButton_wellformed env (js "transcript") ticketId user member ltac:(name_ok)).
Qed.

(** ** What every handler preserves *)

Lemma rowEvolves_refl r : rowEvolves r r.
Proof. unfold rowEvolves. auto 10. Qed.

Lemma rowEvolves_trans r1 r2 r3 :
  rowEvolves r1 r2 → rowEvolves r2 r3 → rowEvolves r1 r3.
Proof.
  unfold rowEvolves.
  intros (?&?&?&?&?&?&?&H12) (?&?&?&?&?&?&?&H23).
  repeat split; try congruence.
  destruct H23 as [H23|H23]; [|by right]. destruct H12; [left|right]; congruence.
Qed.

Global Instance rowEvolves_preorder : PreOrder rowEvolves.
Proof.
  split; [exact rowEvolves_refl|]. intros r1 r2 r3. apply rowEvolves_trans.
Qed.

Global Instance tableEvolves_preorder : PreOrder tableEvolves.
Proof.
  split.
  - intros w. exists (db w), []. by rewrite app_nil_r.
  - intros w1 w2 w3 (old1 & new1 & H1 & Hold1) (old2 & new2 & H2 & Hold2).
    rewrite H1 in Hold2.
    apply Forall2_app_inv_l in Hold2 as (old2a & old2b & Ha & Hb & ->).
    exists old2a, (old2b ++ new2). rewrite H2, <- app_assoc. split; [done|].
    by etrans.
Qed.

Global Instance staysKeyed_preorder : PreOrder staysKeyed.
Proof. split; unfold staysKeyed; [by intros w|]. intros w1 w2 w3; auto. Qed.

Global Instance keepsOthers_preorder userId : PreOrder (keepsOthers userId).
Proof.
  split; unfold keepsOthers; [by intros w|].
  intros w1 w2 w3 H12 H23 k Hk. by rewrite H23, H12.
Qed.

Lemma tableEvolves_update w w' f new :
  (∀ r, rowEvolves r (f r)) → db w' = (f <$> db w) ++ new → tableEvolves w w'.
Proof.
  intros Hf Hdb. exists (f <$> db w), new. split; [done|].
  apply Forall2_fmap_r, Forall2_same_length_lookup_2; [done|].
  intros i r r' Hr Hr'. rewrite Hr in Hr'. injection Hr' as <-. apply Hf.
Qed.

Lemma modify_evolves g : (∀ w, db (g w) = db w) → steps tableEvolves (modify g).
Proof.
  intros H w. apply (tableEvolves_update _ _ id []); [apply rowEvolves_refl|].
  simpl. by rewrite H, list_fmap_id, app_nil_r.
Qed.

Lemma evolves_where id f :
  (∀ r, rowEvolves r (f r)) →
  steps tableEvolves (modify (λ w, with_db (updateWhereId id f (db w)) w)).
Proof.
  intros Hf w.
  apply (tableEvolves_update _ _ (λ r, if (ticket_id r =? id)%N then f r else r) []).
  - intros r. destruct (_ =? _)%N; [apply Hf|apply rowEvolves_refl].
  - simpl. by rewrite app_nil_r.
Qed.

Lemma set_claimed_by_evolves v r : rowEvolves r (set_claimed_by v r).
Proof. unfold rowEvolves. simpl. auto 10. Qed.

Lemma set_status_closed_evolves r : rowEvolves r (set_status (js "closed") r).
Proof. unfold rowEvolves. simpl. auto 10. Qed.

Lemma insert_evolves r :
  steps tableEvolves (modify (λ w, with_db (db w ++ [r]) (with_db_seq (ticket_id r) w))).
Proof.
  intros w. apply (tableEvolves_update _ _ id [r]); [apply rowEvolves_refl|].
  simpl. by rewrite list_fmap_id.
Qed.

Lemma modify_keyed g :
  (∀ w, db (g w) = db w) → (∀ w, db_seq (g w) = db_seq w) →
  steps staysKeyed (modify g).
Proof.
  intros Hdb Hseq w. unfold staysKeyed, keyed. simpl. by rewrite Hdb, Hseq.
Qed.

Lemma keyed_where id f :
  (∀ r, ticket_id (f r) = ticket_id r) →
  steps staysKeyed (modify (λ w, with_db (updateWhereId id f (db w)) w)).
Proof.
  intros Hf w [Hnodup Hle]. unfold keyed, updateWhereId. simpl.
  assert (∀ r, ticket_id (if (ticket_id r =? id)%N then f r else r) = ticket_id r)
    as Hid by (intros r; destruct (_ =? _)%N; [apply Hf|done]).
  split.
  - rewrite <- list_fmap_compose. erewrite list_fmap_ext; [exact Hnodup|].
    intros i r _. apply Hid.
  - apply Forall_fmap. eapply Forall_impl; [exact Hle|].
    intros r Hr. simpl. by rewrite Hid.
Qed.

Lemma insert_keyed env guildId channelId ownerId cat topic :
  steps staysKeyed (insertTicketRow env guildId channelId ownerId cat topic).
Proof.
  intros w [Hnodup Hle]. unfold insertTicketRow, bind, get, modify, emit, modify, ret.
  unfold keyed. simpl. split.
  - rewrite fmap_app. simpl. apply NoDup_app. split; [done|].
    split; [|apply NoDup_singleton].
    intros id Hid Hnew. apply list_elem_of_singleton in Hnew. subst id.
    apply list_elem_of_fmap in Hid as (r & Hr & Hin).
    pose proof (proj1 (Forall_forall _ _) Hle r Hin) as Hbound. simpl in Hbound. lia.
  - apply Forall_app. split.
    + eapply Forall_impl; [exact Hle|]. intros r Hr. simpl in *. lia.
    + apply Forall_singleton. simpl. lia.
Qed.

Lemma modify_keepsOthers userId g :
  (∀ w k, k ≠ userId →
     pendingCategoryForUser (g w) !! k = pendingCategoryForUser w !! k) →
  steps (keepsOthers userId) (modify g).
Proof. intros H w k Hk. by apply H. Qed.

(** One move on a goal [steps R m] for the relations on the table and on
    the pending choices. *)
Ltac frame_step :=
  lazymatch goal with
  | |- steps _ (fetchLoop _ _ _ _ _) => apply steps_fetchLoop; [tc_solve|intros ?]
  | |- steps tableEvolves (modify (λ w, with_db (updateWhereId _ (set_claimed_by _) _) _)) =>
      apply evolves_where; intros; apply set_claimed_by_evolves
  | |- steps tableEvolves (modify (λ w, with_db (updateWhereId _ (set_status _) _) _)) =>
      apply evolves_where; intros; apply set_status_closed_evolves
  | |- steps tableEvolves (modify (λ w, with_db (db w ++ [?r]) _)) =>
      apply (insert_evolves r)
  | |- steps tableEvolves (modify _) => apply modify_evolves; intros; reflexivity
  | |- steps staysKeyed (insertTicketRow _ _ _ _ _ _) => apply insert_keyed
  | |- steps staysKeyed (modify (λ w, with_db (updateWhereId _ _ _) _)) =>
      apply keyed_where; intros; reflexivity
  | |- steps staysKeyed (modify _) => apply modify_keyed; intros; reflexivity
  | |- steps (keepsOthers _) (modify _) =>
      apply modify_keepsOthers; intros; simpl;
      first [ reflexivity
            | by rewrite lookup_insert_ne
            | by rewrite lookup_delete_ne ]
  | |- _ => steps_step
  end.

Ltac frame_auto := repeat frame_step.

Lemma interactionCreate_evolves env i : steps tableEvolves (interactionCreate env i).
Proof. frame_auto. Qed.

Lemma addInteraction_evolves env member targetUser ch :
  steps tableEvolves (addInteraction env member targetUser ch).
Proof. frame_auto. Qed.

Lemma fireTimer_keeps_db env : steps (keeps db) (fireTimer env).
Proof. steps_auto. Qed.

(** ** The table, the key and the pending choices across the listener *)

Lemma find_evolves {A} (R : relation A) (p : A → bool) l l' new t :
  (∀ r r', R r r' → p r' = p r) →
  Forall2 R l l' →
  List.find p l = Some t →
  ∃ t', List.find p (l' ++ new) = Some t' ∧ R t t'.
Proof.
  intros Hp Hall. induction Hall as [|r r' l l' Hr _ IH]; simpl; [done|].
  rewrite (Hp r r' Hr). destruct (p r); [|exact IH].
  intros [= <-]. eauto.
Qed.

Lemma tableEvolves_ticketOf w w' t :
  tableEvolves w w' → ticketOf w t → ∃ t', ticketOf w' t' ∧ rowEvolves t t'.
Proof.
  intros (old & new & Hdb & Hall) [Hid Hch]. unfold ticketOf. rewrite Hdb.
  destruct (find_evolves rowEvolves (λ r, (ticket_id r =? ticket_id t)%N)
              (db w) old new t) as (t1 & Ht1 & Hev1); [|done|exact Hid|].
  { intros r r' (-> & _). done. }
  destruct (find_evolves rowEvolves (λ r, bool_decide (channel_id r = channel_id t))
              (db w) old new t) as (t2 & Ht2 & Hev2); [|done|exact Hch|].
  { intros r r' (_ & _ & -> & _). done. }
  exists t1. destruct Hev1 as (Hid1 & Hg1 & Hch1 & Hrest1).
  unfold selectById, selectByChannel. rewrite Hid1, Hch1, Ht1. split; [split; [done|]|].
  - rewrite Ht2. f_equal.
    (* both searches stop at the evolved copy of [t] *)
    clear -Hall Hid Hch Ht1 Ht2.
    unfold selectById, selectByChannel in *.
    induction Hall as [|r r' l l' (Hi & _ & Hc & _) _ IH]; simpl in *; [done|].
    rewrite Hi in Ht1. rewrite Hc in Ht2.
    destruct (ticket_id r =? ticket_id t)%N eqn:Hrid.
    + injection Hid as ->. rewrite bool_decide_eq_true_2 in Ht2 by done. congruence.
    + destruct (bool_decide (channel_id r = channel_id t)) eqn:Hrch.
      * injection Hch as ->. by rewrite N.eqb_refl in Hrid.
      * by apply IH.
  - repeat split; tauto.
Qed.

(** X5: whatever the interaction, the rows of the table stay in place with
    their id, guild, channel, owner, category, topic and creation time; a
    status changes only to ['closed']; new rows come after the old ones.  The
    [add] command and the delayed step of a close leave the table as it is. *)
Theorem handlers_evolve_table env w :
  (∀ i, embedded i = true → tableEvolves w (interactionCreate env i w).2)
  ∧ (∀ member targetUser ch,
       db (addInteraction env member targetUser ch w).2 = db w)
  ∧ db (fireTimer env w).2 = db w.
Proof.
  split; [|split].
  - intros i _. apply interactionCreate_evolves.
  - intros member targetUser ch.
    assert (steps (keeps db) (addInteraction env member targetUser ch)) as H
      by steps_auto.
    apply H.
  - apply fireTimer_keeps_db.
Qed.

(** X6: a ticket that its id and its channel select is still selected by
    both after any interaction, and if it was closed it still is. *)
Theorem ticket_stays_selected env i w t :
  embedded i = true →
  ticketOf w t →
  ∃ t', ticketOf (interactionCreate env i w).2 t'
    ∧ ticket_id t' = ticket_id t ∧ channel_id t' = channel_id t
    ∧ owner_id t' = owner_id t
    ∧ (status t = js "closed" → status t' = js "closed").
Proof.
  intros _ Ht.
  destruct (tableEvolves_ticketOf w _ t (interactionCreate_evolves env i w) Ht)
    as (t' & Ht' & Hid & _ & Hch & Hown & _ & _ & _ & Hst).
  exists t'. repeat split; try done; try apply Ht'.
  intros Hclosed. destruct Hst as [Hst|Hst]; congruence.
Qed.

(** X7: the ids of the table stay distinct and bounded by the counter of
    the key, whatever the interaction. *)
Theorem primary_key_preserved env i w :
  embedded i = true →
  keyed w → keyed (interactionCreate env i w).2.
Proof.
  intros _.
  assert (steps staysKeyed (interactionCreate env i)) as H by frame_auto.
  apply H.
Qed.

(** X8: an interaction leaves the pending choice of every other user as it
    is. *)
Theorem pending_of_others_untouched env i w k :
  embedded i = true →
  k ≠ u_id (interactionUser i) →
  pendingCategoryForUser (interactionCreate env i w).2 !! k
  = pendingCategoryForUser w !! k.
Proof.
  assert (steps (keepsOthers (u_id (interactionUser i))) (interactionCreate env i))
    as H by (destruct i; cbn [interactionUser]; frame_auto).
  intros _. apply H.
Qed.

(** *** No rejection escapes *)





(** *** Handlers that only answer *)

Ltac only_answers tac :=
  lazymatch goal with
  | |- onlyAnswers ?a ?w (?m ?w).2 =>
      let go := fun R =>
        (let H := fresh in assert (steps R m) as H by tac; exact (H w)) in
      unfold onlyAnswers; repeat apply conj;
      [ go (keeps db) | go (keeps db_seq) | go (keeps pendingCategoryForUser)
      | go (keeps cache) | go (keeps files) | go (keeps dirs) | go (keeps timers)
      | go (logs a) ]
  end.

Ltac nonstaff_auto H := repeat (rewrite ?H; cbn [negb]; frame_step).

(** X10: a button or a command of someone who is not staff changes nothing:
    the table, the pending choices, the channels, the files and the timers
    are as before, and the only calls made are error replies. *)
Theorem non_staff_changes_nothing env i member w :
  embedded i = true →
  interactionMember i = Some member →
  isStaff env member = false →
  onlyAnswers isErrorReply w (interactionCreate env i w).2.
Proof.
  intros _ Hi Hstaff.
  destruct i as [| |customId user member'|name user member' channelOption channel];
    try discriminate; injection Hi as ->.
  - only_answers ltac:(nonstaff_auto Hstaff).
  - only_answers ltac:(nonstaff_auto Hstaff).
Qed.



(** ** Termination *)

Lemma halts_ret {A} (a : A) : halts (ret a).
Proof. by intros w. Qed.

Lemma halts_throw {A} : halts (@throw A).
Proof. by intros w. Qed.

Lemma halts_get : halts get.
Proof. by intros w. Qed.

Lemma halts_modify f : halts (modify f).
Proof. by intros w. Qed.

Lemma halts_bind {A B} (m : M A) (k : A → M B) :
  halts m → (∀ a, halts (k a)) → halts (bind m k).
Proof.
  intros Hm Hk w. unfold bind. specialize (Hm w).
  destruct (m w) as [[a| |] w1]; [apply Hk|done..].
Qed.

Lemma halts_tryCatch {A} (m h : M A) : halts m → halts h → halts (tryCatch m h).
Proof.
  intros Hm Hh w. unfold tryCatch. specialize (Hm w).
  destruct (m w) as [[a| |] w1]; [done|apply Hh|done].
Qed.

(** One move on a goal [halts m]; the loop of the channel name is known to
    return. *)
Ltac halts_step :=
  lazymatch goal with
  | |- halts (ret _) => apply halts_ret
  | |- halts throw => apply halts_throw
  | |- halts get => apply halts_get
  | |- halts (modify _) => apply halts_modify
  | |- halts (bind _ _) => apply halts_bind; [|intros ?]
  | |- halts (tryCatch _ _) => apply halts_tryCatch
  | |- halts (match uniqueChannelName ?names ?base with _ => _ end) =>
      let Hr := fresh in
      destruct (uniqueChannelName_returns names base) as [? Hr]; rewrite Hr
  | |- halts (match ?x with _ => _ end) => destruct x
  | |- halts (let _ := _ in _) => cbv zeta
  | |- halts ?m => let h := head_of m in unfold h
  end.

Ltac halts_auto := repeat halts_step.

Lemma createTicket_halts env user categoryIndex topic :
  halts (createTicketChannelFromChoice env user categoryIndex topic).
Proof. halts_auto. Qed.


(** ** Ticket creation *)

Lemma digit_slugChar c : isDigit c = true → slugChar c.
Proof. intros H. unfold slugChar. rewrite H. auto. Qed.

Lemma candidate_slug base k : Forall slugChar base → Forall slugChar (candidate base k).
Proof.
  intros Hbase. destruct k; [done|]. cbn [candidate].
  apply Forall_app. split; [done|]. constructor; [unfold slugChar; auto|].
  destruct (String_of_N_digits (N.of_nat (S k))) as (Hdig & _).
  eapply Forall_impl; [exact Hdig|]. intros c. apply digit_slugChar.
Qed.

Lemma channelBaseOf_slug categoryName username nickname :
  Forall slugChar username → Forall slugChar nickname →
  Forall slugChar (channelBaseOf categoryName username nickname).
Proof.
  intros Hu Hn. unfold channelBaseOf.
  assert (slugChar dash) as Hdash by (unfold slugChar; auto).
  assert (Forall slugChar (normalizeForName categoryName ++ dash :: username)) as Hbase.
  { apply Forall_app. split; [apply normalizeForName_chars|by constructor]. }
  destruct (_ && _); [|done].
  apply Forall_app. split; [done|by constructor].
Qed.

Lemma getOrCreateCategoryByName_cache env name w r w1 :
  getOrCreateCategoryByName env name w = (r, w1) →
  cache w ⊆ cache w1 ∧ db w1 = db w ∧ db_seq w1 = db_seq w.
Proof.
  unfold getOrCreateCategoryByName, bind at 1, get. cbn [fst snd].
  destruct (List.find _ _) as [c|].
  - by intros [= <- <-].
  - unfold tryCatch, channelsCreate, call, bind, get, emit, modify, ret, throw.
    cbn [fst snd].
    destruct (succeeds env _); intros [= <- <-]; cbn; [|done].
    split; [|done]. intros c Hc. apply elem_of_app. by left.
Qed.

Lemma swallow_overwriteCreate_back env channel target w r w3 :
  swallow (overwriteCreate env channel target) w = (r, w3) →
  db w3 = db w ∧ db_seq w3 = db_seq w
  ∧ ∀ c', c' ∈ cache w3 →
      ∃ c, c ∈ cache w ∧ ch_id c' = ch_id c ∧ ch_name c' = ch_name c.
Proof.
  unfold swallow, tryCatch, overwriteCreate, call, bind, emit, modify, ret, throw.
  cbn [fst snd]. destruct (succeeds env _); intros [= <- <-]; cbn.
  - repeat split. intros c' Hc'.
    apply list_elem_of_fmap in Hc' as (c & -> & Hc).
    exists c. split; [done|]. by destruct (bool_decide _).
  - repeat split. intros c' Hc'. by exists c'.
Qed.

Lemma sendToStaffLog_frame env p w :
  let w' := (sendToStaffLog env p w).2 in
  db w' = db w ∧ db_seq w' = db_seq w ∧ cache w' = cache w
  ∧ ∃ es, log w' = log w ++ es.
Proof.
  assert (steps (keeps db) (sendToStaffLog env p)) as H1 by steps_auto.
  assert (steps (keeps db_seq) (sendToStaffLog env p)) as H2 by steps_auto.
  assert (steps (keeps cache) (sendToStaffLog env p)) as H3 by steps_auto.
  assert (steps (logs (λ _, true)) (sendToStaffLog env p)) as H4 by steps_auto.
  repeat split; [apply H1|apply H2|apply H3|].
  destruct (H4 w) as (es & Hes & _). by exists es.
Qed.

(** What a ticket creation that returns has done. *)
Lemma createTicket_Ret env user categoryIndex topic w created ticketId w' :
  createTicketChannelFromChoice env user categoryIndex topic w
  = (Ret (created, ticketId), w') →
  ticketId = (db_seq w + 1)%N
  ∧ db w' = db w ++ [mkRow ticketId (guildId env) (ch_id created) (u_id user) None
                       (js "open") (Some (categoryNameOf categoryIndex))
                       (orNull (orNull topic)) (now env)]
  ∧ db_seq w' = ticketId
  ∧ Forall slugChar (ch_name created)
  ∧ (ch_name created ∉ ch_name <$> cache w)
  ∧ (∀ c, c ∈ cache w' → ch_name c = ch_name created → ch_id c = ch_id created)
  ∧ ∃ p, ChannelSend (ch_id created) p ∈ log w'
         ∧ p_components p = buildTicketControlRow ticketId.
Proof.
  unfold createTicketChannelFromChoice. cbv zeta. intros H.
  apply bind_Ret_inv in H as ([parent|] & w1 & Hparent & H); [|done].
  apply getOrCreateCategoryByName_cache in Hparent as (Hsub1 & Hdb1 & Hseq1).
  apply bind_Ret_inv in H as (w1' & w1'' & [= <- <-] & H).
  destruct (uniqueChannelName _ _) as [channelName|] eqn:Hunique; [|done].
  unfold uniqueChannelName in Hunique.
  destruct (uniqueNameLoop_some _ _ _ 0 channelName
              ltac:(intros j Hj; lia) Hunique) as (k & -> & Hout & _).
  clear Hunique.
  apply bind_Ret_inv in H as (created0 & w2 & Hcreate & H).
  apply channelsCreate_Ret in Hcreate as (Hcreated & Hcache2 & Hdb2 & Hseq2).
  apply bind_Ret_inv in H as ([] & w3 & Hstaff & H).
  assert (db w3 = db w2 ∧ db_seq w3 = db_seq w2
          ∧ ∀ c', c' ∈ cache w3 →
              ∃ c, c ∈ cache w2 ∧ ch_id c' = ch_id c ∧ ch_name c' = ch_name c)
    as (Hdb3 & Hseq3 & Hback3).
  { destruct (List.find _ (roles env)) as [staffRole|].
    - by apply swallow_overwriteCreate_back in Hstaff.
    - injection Hstaff as <-. repeat split. intros c' Hc'. by exists c'. }
  apply bind_Ret_inv in H as (ticketId0 & w4 & Hinsert & H).
  unfold insertTicketRow, bind, get, emit, modify, ret in Hinsert.
  cbn [fst snd] in Hinsert. injection Hinsert as <- <-.
  apply bind_Ret_inv in H as ([] & w5 & Hsend & H).
  unfold channelSend, call, bind, emit, modify, ret, throw in Hsend.
  cbn [fst snd] in Hsend. destruct (succeeds env _); [|done].
  injection Hsend as <-.
  apply bind_Ret_inv in H as ([] & w6 & Hlogged & H).
  injection H as <- <- <-.
  match type of Hlogged with
  | sendToStaffLog _ ?p ?w5 = _ =>
      destruct (sendToStaffLog_frame env p w5) as (Hdb6 & Hseq6 & Hcache6 & es & Hlog6)
  end.
  rewrite Hlogged in Hdb6, Hseq6, Hcache6, Hlog6.
  simpl in Hdb6, Hseq6, Hcache6, Hlog6.
  subst created0. cbn [ch_id ch_name] in *.
  rewrite Hdb6, Hseq6, Hcache6, Hlog6, Hdb3, Hseq3, Hdb2, Hseq2, Hdb1, Hseq1.
  split; [done|]. split; [done|]. split; [done|]. split; [|split; [|split]].
  - apply candidate_slug, channelBaseOf_slug; [apply normalizeForName_chars|].
    destruct (fetchMember env _) as [m|]; [|constructor].
    destruct (truthyOpt _); [apply normalizeForName_chars|constructor].
  - intros Hin. apply Hout.
    apply list_elem_of_fmap in Hin as (c & Hname & Hc).
    apply list_elem_of_fmap. exists c. split; [done|]. by apply Hsub1.
  - intros c Hc Hname.
    destruct (Hback3 c Hc) as (c2 & Hc2 & Hid & Hname2).
    rewrite Hcache2 in Hc2. apply elem_of_app in Hc2 as [Hold|Hnew].
    + exfalso. apply Hout. rewrite <- Hname, Hname2.
      apply list_elem_of_fmap. by exists c2.
    + apply list_elem_of_singleton in Hnew. subst c2. by rewrite Hid.
  - eexists. split.
    + apply elem_of_app. left. apply elem_of_app. right.
      apply list_elem_of_singleton. reflexivity.
    + reflexivity.
Qed.


Lemma selectById_fresh id rows r :
  Forall (λ r, (ticket_id r < id)%N) rows → ticket_id r = id →
  selectById id (rows ++ [r]) = Some r.
Proof.
  intros Hall Hr. unfold selectById.
  induction Hall as [|r0 rows Hr0 _ IH]; simpl.
  - by rewrite Hr, N.eqb_refl.
  - rewrite (proj2 (N.eqb_neq _ _)) by lia. exact IH.
Qed.

Lemma selectByChannel_fresh c rows r :
  selectByChannel c rows = None → channel_id r = c →
  selectByChannel c (rows ++ [r]) = Some r.
Proof.
  unfold selectByChannel. intros Hnone Hr.
  induction rows as [|r0 rows IH]; simpl in *.
  - by rewrite bool_decide_eq_true_2.
  - destruct (bool_decide _); [done|]. by apply IH.
Qed.

(** X14: when the ids of the table are distinct and bounded by the counter,
    and no row records the channel that gets created, the ticket that a
    creation returns is the row that its id and its channel select: open,
    unclaimed, owned by the user, in the category that was picked; and the
    message posted in the channel carries the control row of that id. *)
Theorem created_ticket_is_registered env user categoryIndex topic w created ticketId w' :
  keyed w →
  selectByChannel (ch_id created) (db w) = None →
  createTicketChannelFromChoice env user categoryIndex topic w
  = (Ret (created, ticketId), w') →
  ∃ r, ticketOf w' r
    ∧ ticket_id r = ticketId ∧ channel_id r = ch_id created
    ∧ owner_id r = u_id user ∧ status r = js "open" ∧ claimed_by r = None
    ∧ category r = Some (categoryNameOf categoryIndex)
    ∧ ∃ p, ChannelSend (ch_id created) p ∈ log w'
           ∧ p_components p = buildTicketControlRow (ticket_id r).
Proof.
  intros [_ Hle] Hnone H.
  apply createTicket_Ret in H as (Hid & Hdb & _ & _ & _ & _ & Hsend).
  exists (mkRow ticketId (guildId env) (ch_id created) (u_id user) None
            (js "open") (Some (categoryNameOf categoryIndex))
            (orNull (orNull topic)) (now env)).
  split; [|by repeat split].
  unfold ticketOf. rewrite Hdb. cbn [ticket_id channel_id]. split.
  - apply selectById_fresh; [|done].
    eapply Forall_impl; [exact Hle|]. intros r Hr. simpl in Hr. lia.
  - by apply selectByChannel_fresh.
Qed.



(** ** Channels and files *)

Lemma channelsCreate_grows env name type parent overwrites :
  steps cacheGrows (channelsCreate env name type parent overwrites).
Proof.
  intros w c Hc. exists c.
  unfold channelsCreate, call, bind, get, emit, modify, ret, throw. cbn [fst snd].
  destruct (succeeds env _); cbn; [|done].
  split; [|done]. apply elem_of_app. by left.
Qed.

Lemma overwriteCreate_grows' env channel target :
  steps cacheGrows (overwriteCreate env channel target).
Proof.
  intros w c Hc.
  unfold overwriteCreate, call, bind, emit, modify, ret, throw.
  cbn [fst snd]. destruct (succeeds env _); cbn [fst snd]; [|by exists c].
  eexists. split.
  - cbn. apply list_elem_of_fmap. exists c. split; [reflexivity|done].
  - by destruct (bool_decide _).
Qed.

Lemma modify_grows g : (∀ w, cache (g w) = cache w) → steps cacheGrows (modify g).
Proof. intros H w c Hc. exists c. simpl. by rewrite H. Qed.

Ltac grows_step :=
  lazymatch goal with
  | |- steps cacheGrows (channelsCreate _ _ _ _ _) => apply channelsCreate_grows
  | |- steps cacheGrows (overwriteCreate _ _ _) => apply overwriteCreate_grows'
  | |- steps cacheGrows (modify _) => apply modify_grows; intros; reflexivity
  | |- _ => frame_step
  end.

Ltac grows_auto := repeat grows_step.

(** X16: no interaction deletes a channel: every channel of the cache is
    still there afterwards, with its id, name and type, and no deletion is
    asked of the platform.  Deleting is left to the delayed step. *)
Theorem interactions_delete_no_channel env i w :
  embedded i = true →
  cacheGrows w (interactionCreate env i w).2
  ∧ logs (λ e, negb (isChannelDelete e)) w (interactionCreate env i w).2.
Proof.
  intros _. split.
  - assert (steps cacheGrows (interactionCreate env i)) as H by grows_auto.
    apply H.
  - assert (steps (logs (λ e, negb (isChannelDelete e))) (interactionCreate env i))
      as H by steps_auto.
    apply H.
Qed.

Lemma fetchLoop_keeps_files env n channel messages lastId :
  steps (keeps files) (fetchLoop env n channel messages lastId).
Proof. steps_auto. Qed.

(** X17: [makeTranscript] writes all or nothing: either the files are as
    before and it has not returned, or it returns the transcript path of the
    channel, and that is the one file it has written. *)
Theorem makeTranscript_all_or_nothing env channel w :
  let r := makeTranscript env channel w in
  (files r.2 = files w ∧ ∀ path, r.1 ≠ Ret path)
  ∨ (r.1 = Ret (transcriptPath env channel)
     ∧ ∃ text, files r.2 = <[transcriptPath env channel := text]> (files w)).
Proof.
  intros r.
  assert (∃ w0, files w0 = files w
    ∧ r = (messages <- fetchLoop env (fuel env) channel [] None ;;
           writeFileSync (transcriptPath env channel)
             (foldl (λ text msg, text ++ renderMessage env msg)
                    (transcriptHeader channel) (reverse messages)) ;;;
           ret (transcriptPath env channel)) w0) as (w0 & Hw0 & ->).
  { subst r. unfold makeTranscript. cbv zeta.
    unfold bind at 1, get. cbn [fst snd]. unfold bind at 1.
    destruct (negb _); eexists; (split; [|reflexivity]); done. }
  pose proof (fetchLoop_keeps_files env (fuel env) channel [] None w0) as Hkeep.
  unfold keeps in Hkeep.
  destruct (fetchLoop env (fuel env) channel [] None w0) as [[messages| |] w1]
    eqn:Hfetch; unfold bind; rewrite Hfetch; cbn [fst snd] in *.
  - right. split; [done|]. eexists. cbn. by rewrite Hkeep, Hw0.
  - left. split; [congruence|done].
  - left. split; [congruence|done].
Qed.

(** ** The delayed step of a close *)

Lemma sendToStaffLog_run env p w :
  ∃ w', sendToStaffLog env p w = (Ret tt, w') ∧ cache w' = cache w
        ∧ logs (λ e, negb (isErrorSend e) || isErrorSend (ChannelSend [] p)) w w'.
Proof.
  destruct (sendToStaffLog_returns env p w) as [w' Hrun].
  exists w'. split; [done|].
  pose proof (sendToStaffLog_keeps_cache env p w) as Hcache.
  rewrite Hrun in Hcache. split; [exact Hcache|].
  assert (steps (logs (λ e, negb (isErrorSend e) || isErrorSend (ChannelSend [] p)))
                (sendToStaffLog env p)) as H.
  { unfold sendToStaffLog. destruct (truthyOpt _); [|steps_auto].
    apply steps_bind; [tc_solve|steps_auto|]. intros [c|]; [|steps_auto].
    unfold swallow, channelSend, call.
    apply steps_tryCatch; [tc_solve| |steps_auto].
    apply steps_bind; [tc_solve| |intros ?; steps_auto].
    apply steps_logs_emit. simpl. by destruct (e_kind _). }
  specialize (H w). by rewrite Hrun in H.
Qed.

Lemma swallow_userSend_run env id p w :
  ∃ w', swallow (userSend env id p) w = (Ret tt, w') ∧ cache w' = cache w
        ∧ logs (λ e, negb (isErrorSend e)) w w'.
Proof.
  destruct (swallow_userSend_returns env id p w) as [w' Hrun].
  exists w'. split; [done|].
  assert (steps (keeps cache) (swallow (userSend env id p))) as Hcache by steps_auto.
  assert (steps (logs (λ e, negb (isErrorSend e))) (swallow (userSend env id p)))
    as Hlog by steps_auto.
  specialize (Hcache w). specialize (Hlog w). rewrite Hrun in Hcache, Hlog. done.
Qed.







(** X19: once the transcript is made, the delayed step of the Close button
    returns without sending any error notice, whether or not the messages
    and the deletion that follow succeed: a deletion that fails is not
    reported to the staff log. *)
Theorem failed_deletion_is_not_reported env t ticketId w ch path w1 :
  List.find (λ c, bool_decide (ch_id c = channel_id t)) (cache w) = Some ch →
  makeTranscript env ch w = (Ret path, w1) →
  (closeButtonCallback env t ticketId w).1 = Ret tt
  ∧ logs (λ e, negb (isErrorSend e)) w1 (closeButtonCallback env t ticketId w).2.
Proof.
  intros Hfind Htranscript.
  assert (∃ w', closeButtonCallback env t ticketId w = (Ret tt, w')
                ∧ logs (λ e, negb (isErrorSend e)) w1 w') as (w' & -> & Hlogs);
    [|done].
  unfold closeButtonCallback, tryCatch at 1.
  unfold bind at 1, cacheGet, bind at 1, get, ret at 1.
  cbn [cache fst snd]. rewrite Hfind.
  unfold bind at 1. rewrite Htranscript.
  unfold bind at 1.
  match goal with
  | |- context [sendToStaffLog env ?p w1] =>
      destruct (sendToStaffLog_run env p w1) as (w2 & -> & _ & Hl2)
  end.
  simpl in Hl2.
  assert (steps (logs (λ e, negb (isErrorSend e))) (swallow (channelDelete env ch)))
    as Hdel by steps_auto.
  assert (∀ w, (swallow (channelDelete env ch) w).1 = Ret tt) as Hret.
  { intros w0. unfold swallow, tryCatch, channelDelete, call, bind, emit, modify,
      ret, throw. cbn [fst snd]. by destruct (succeeds env _). }
  assert (logs (λ e, negb (isErrorSend e)) w1 w2) as Hl2'.
  { destruct Hl2 as (es & Hes & Hall). exists es. split; [done|].
    eapply Forall_impl; [exact Hall|]. intros e He. simpl in He.
    by rewrite orb_false_r in He. }
  unfold bind at 1, tryCatch at 1.
  destruct (fetchMember env (owner_id t)) as [owner|].
  - match goal with
    | |- context [swallow (userSend env ?i ?p) w2] =>
        destruct (swallow_userSend_run env i p w2) as (w3 & -> & _ & Hl3)
    end.
    specialize (Hdel w3). specialize (Hret w3).
    destruct (swallow (channelDelete env ch) w3) as [[[]| |] w4]; try done.
    eexists. split; [reflexivity|]. cbn [snd] in *.
    by do 2 (etrans; [eassumption|]).
  - unfold ret at 1.
    specialize (Hdel w2). specialize (Hret w2).
    destruct (swallow (channelDelete env ch) w2) as [[[]| |] w4]; try done.
    eexists. split; [reflexivity|]. cbn [snd] in *. by etrans.
Qed.

(** ** The [add] command *)





(** ** One ticket at a time *)

Lemma updateWhereId_id id rows : updateWhereId id (λ r, r) rows = rows.
Proof.
  unfold updateWhereId. rewrite <- (list_fmap_id rows) at 2.
  apply list_fmap_ext. intros i r _. by destruct (_ =? _)%N.
Qed.

Lemma updateWhereId_twice id f g rows :
  (∀ r, ticket_id (f r) = ticket_id r) →
  updateWhereId id g (updateWhereId id f rows) = updateWhereId id (g ∘ f) rows.
Proof.
  intros Hf. unfold updateWhereId. rewrite <- list_fmap_compose.
  apply list_fmap_ext. intros i r _. simpl.
  destruct (ticket_id r =? id)%N eqn:Hr; [|by rewrite Hr].
  by rewrite Hf, Hr.
Qed.

Global Instance touchesOnly_preorder id : PreOrder (touchesOnly id).
Proof.
  split.
  - intros w. exists (λ r, r). split; [done|]. by rewrite updateWhereId_id.
  - intros w1 w2 w3 (f & Hf & H12) (g & Hg & H23). exists (g ∘ f). split.
    + intros r. simpl. by rewrite Hg, Hf.
    + by rewrite H23, H12, updateWhereId_twice.
Qed.

Global Instance armsOnly_preorder P : PreOrder (armsOnly P).
Proof.
  split.
  - intros w. exists []. by rewrite app_nil_r.
  - intros w1 w2 w3 (new1 & H1 & Hall1) (new2 & H2 & Hall2).
    exists (new1 ++ new2). rewrite H2, H1, app_assoc. split; [done|].
    by apply Forall_app.
Qed.

Lemma modify_touchesOnly id g :
  (∀ w, db (g w) = db w) → steps (touchesOnly id) (modify g).
Proof.
  intros H w. exists (λ r, r). split; [done|]. simpl.
  by rewrite H, updateWhereId_id.
Qed.

Lemma update_touchesOnly id f :
  (∀ r, ticket_id (f r) = ticket_id r) →
  steps (touchesOnly id) (modify (λ w, with_db (updateWhereId id f (db w)) w)).
Proof. intros Hf w. by exists f. Qed.

Lemma modify_armsOnly P g :
  (∀ w, timers (g w) = timers w) → steps (armsOnly P) (modify g).
Proof. intros H w. exists []. simpl. by rewrite H, app_nil_r. Qed.

Lemma setTimeout_armsOnly (P : Task → Prop) task ms :
  P task → steps (armsOnly P) (setTimeout task ms).
Proof.
  intros HP w. exists [task]. split; [done|]. by constructor.
Qed.

Ltac ticket_step :=
  lazymatch goal with
  | |- steps (touchesOnly _) (modify (λ w, with_db (updateWhereId _ _ _) _)) =>
      apply update_touchesOnly; intros; reflexivity
  | |- steps (touchesOnly _) (modify _) =>
      apply modify_touchesOnly; intros; reflexivity
  | |- steps (armsOnly _) (setTimeout _ _) =>
      apply setTimeout_armsOnly; unfold closeTaskOf; auto
  | |- steps (armsOnly _) (modify _) =>
      apply modify_armsOnly; intros; reflexivity
  | |- _ => frame_step
  end.

Ltac ticket_auto := repeat ticket_step.

(** How the listener runs on a button or a command whose ticket is found. *)
Lemma interactionCreate_target env i w t :
  targetTicket i w = Some t →
  ∃ m : M unit,
    interactionCreate env i w = tryCatch m (genericError env) (fresh w)
    ∧ steps (touchesOnly (ticket_id t)) m
    ∧ steps (armsOnly (closeTaskOf t)) m.
Proof.
  destruct i as [| |customId user member|name user member channelOption channel];
    try discriminate; cbn [targetTicket].
  - intros Ht. destruct (toNumber _) as [id|] eqn:Hid; [|done]. simpl in Ht.
    pose proof (selectById_id _ _ _ Ht) as Htid.
    destruct (negb (truthy (default [] (split underscore customId !! 1%nat))))
      eqn:Htruthy.
    { destruct (split underscore customId !! 1%nat) as [[|c s]|]; try done. }
    exists (buttonAction env (default [] (split underscore customId !! 0%nat))
              (ticket_id t) t
              (List.find (λ c, bool_decide (ch_id c = channel_id t)) (cache w))
              user member).
    split; [|split].
    + unfold interactionCreate, bind at 1, modify. fold (fresh w).
      unfold tryCatch, onButton. cbv zeta. rewrite Htruthy, Hid.
      unfold bind at 1, getTicketById, bind at 1, get, ret. cbn [fst snd].
      change (db (fresh w)) with (db w). rewrite Ht.
      unfold bind at 1, cacheGet, bind at 1, get, ret. cbn [fst snd].
      by rewrite Htid.
    + ticket_auto.
    + ticket_auto.
  - intros Ht.
    exists (when (bool_decide (name ∈ ticketCommands))
              (if negb (isStaff env member)
               then reply env (ephemeral (embedError (js "Geen permissie")
                      (js "Alleen staff kan deze actie uitvoeren.")))
               else commandAction env name (default channel channelOption) t
                      user member)).
    split; [|split].
    + unfold interactionCreate, bind at 1, modify. fold (fresh w).
      unfold tryCatch, when. destruct (bool_decide _); [|done].
      unfold onTicketCommand. cbv zeta.
      unfold bind at 1, getTicketByChannel, bind at 1, get, ret. cbn [fst snd].
      change (db (fresh w)) with (db w). by rewrite Ht.
    + ticket_auto.
    + ticket_auto.
Qed.

Lemma genericError_touchesOnly env id : steps (touchesOnly id) (genericError env).
Proof. ticket_auto. Qed.

Lemma genericError_armsOnly env P : steps (armsOnly P) (genericError env).
Proof. ticket_auto. Qed.

(** X21: a button or a command whose ticket is in the table changes no row
    but that ticket's, and arms no timer but the delayed step of a close of
    that ticket, which holds the row as it was read. *)
Theorem handlers_act_on_one_ticket env i w t :
  embedded i = true →
  targetTicket i w = Some t →
  let w' := (interactionCreate env i w).2 in
  (∀ k r, db w !! k = Some r → ticket_id r ≠ ticket_id t → db w' !! k = Some r)
  ∧ length (db w') = length (db w)
  ∧ ∃ new, timers w' = timers w ++ new ∧ Forall (closeTaskOf t) new.
Proof.
  intros _ Ht w'.
  destruct (interactionCreate_target env i w t Ht) as (m & Hrun & Hdb & Harm).
  subst w'. rewrite Hrun.
  assert (touchesOnly (ticket_id t) w (tryCatch m (genericError env) (fresh w)).2)
    as (f & Hf & Heq).
  { assert (steps (touchesOnly (ticket_id t)) (tryCatch m (genericError env))) as H.
    { apply steps_tryCatch; [tc_solve|done|apply genericError_touchesOnly]. }
    exact (H (fresh w)). }
  assert (armsOnly (closeTaskOf t) w (tryCatch m (genericError env) (fresh w)).2)
    as Hnew.
  { assert (steps (armsOnly (closeTaskOf t)) (tryCatch m (genericError env))) as H.
    { apply steps_tryCatch; [tc_solve|done|apply genericError_armsOnly]. }
    exact (H (fresh w)). }
  split; [|split; [|exact Hnew]].
  - intros k r Hk Hr. rewrite Heq. unfold updateWhereId.
    rewrite list_lookup_fmap, Hk. simpl.
    by rewrite (proj2 (N.eqb_neq _ _) Hr).
  - rewrite Heq. unfold updateWhereId. by rewrite length_fmap.
Qed.

(** ** Concrete runs of the further properties *)

(** The ninth option of the menu. *)
Lemma dropdown_value_names_label_witness :
  let o := mkSelectOption (js "Content Creator Co" ++ 246%N :: js "rdinator") (js "8") in
  menu_options buildCategoryDropdown !! 8%nat = Some o
  ∧ categoryNameOf (parseInt (opt_value o)) = opt_label o.
Proof.
  intros o. split; [reflexivity|].
  apply (dropdown_value_names_label 8 o). reflexivity.
Defined.

(** The Close button of ticket 1. *)
Lemma control_row_round_trip_witness :
  ∃ action, ticketCommands !! 2%nat = Some action
    ∧ onButton sampleEnv (js "close_1") sampleUser (Some sampleStaff)
      = (ticketRow <- getTicketById 1 ;;
         match ticketRow with
         | None => reply sampleEnv (ephemeral (embedError (js "Niet gevonden")
                     (js "Ticket niet gevonden in database")))
         | Some ticketRow =>
             channelObj <- cacheGet (channel_id ticketRow) ;;
             buttonAction sampleEnv action 1 ticketRow channelObj sampleUser
               (Some sampleStaff)
         end).
Proof.
  apply (control_row_round_trip sampleEnv 1 2 (js "close_1") sampleUser
           (Some sampleStaff)).
  reflexivity.
Defined.

(** Ticket 1 is closed by a member of staff. *)
Lemma ticket_stays_selected_witness :
  ∃ t', ticketOf (interactionCreate sampleEnv
                    (ButtonPress (js "close_1") sampleUser (Some sampleStaff))
                    sampleWorld).2 t'
    ∧ ticket_id t' = 1%N ∧ channel_id t' = js "700".
Proof.
  destruct (ticket_stays_selected sampleEnv
              (ButtonPress (js "close_1") sampleUser (Some sampleStaff))
              sampleWorld sampleRow) as (t' & Ht' & Hid & Hch & _).
  - reflexivity.
  - split; reflexivity.
  - exists t'. split; [exact Ht'|]. split; [exact Hid|exact Hch].
Defined.

Lemma keyed_sampleWorld : keyed sampleWorld.
Proof.
  split.
  - apply (bool_decide_unpack _). vm_compute. exact I.
  - repeat constructor. simpl. lia.
Defined.

(** A second ticket is opened in the sample guild. *)
Lemma primary_key_preserved_witness :
  keyed (interactionCreate sampleEnv
           (ModalSubmit (js "ticket_topic_modal") sampleUser (js "hallo"))
           (with_pending {[js "500" := js "2"]} sampleWorld)).2.
Proof.
  apply primary_key_preserved; [reflexivity|exact keyed_sampleWorld].
Defined.

(** The user [500] picks a category while [501] has a choice pending. *)
Lemma pending_of_others_untouched_witness :
  pendingCategoryForUser
    (interactionCreate sampleEnv
       (StringSelectMenu (js "ticket_category_select") sampleUser (js "3"))
       (with_pending {[js "501" := js "2"]} sampleWorld)).2 !! js "501"
  = Some (js "2").
Proof.
  rewrite pending_of_others_untouched; [reflexivity|reflexivity|].
  intros H. vm_compute in H. discriminate H.
Defined.

(** A guest presses Close on ticket 1. *)
Lemma non_staff_changes_nothing_witness :
  onlyAnswers isErrorReply sampleWorld
    (interactionCreate sampleEnv
       (ButtonPress (js "close_1") sampleUser (Some sampleGuest)) sampleWorld).2.
Proof.
  apply (non_staff_changes_nothing sampleEnv _ (Some sampleGuest)); reflexivity.
Defined.



Lemma sample_creation :
  ∃ created ticketId w',
    createTicketChannelFromChoice sampleEnv sampleUser (Some 7%Z) None sampleWorld
    = (Ret (created, ticketId), w')
    ∧ selectByChannel (ch_id created) (db sampleWorld) = None.
Proof. vm_compute. do 3 eexists. split; reflexivity. Defined.


Lemma created_ticket_is_registered_witness :
  ∃ created ticketId w' r,
    createTicketChannelFromChoice sampleEnv sampleUser (Some 7%Z) None sampleWorld
    = (Ret (created, ticketId), w')
    ∧ ticketOf w' r ∧ ticket_id r = ticketId ∧ status r = js "open".
Proof.
  destruct sample_creation as (created & ticketId & w' & Hrun & Hnone).
  destruct (created_ticket_is_registered _ _ _ _ _ _ _ _
              keyed_sampleWorld Hnone Hrun) as (r & Hr & Hid & _ & _ & Hst & _).
  exists created, ticketId, w', r. split; [exact Hrun|].
  split; [exact Hr|]. split; [exact Hid|exact Hst].
Defined.



(** The delayed step of a close of ticket 1. *)
Lemma failed_deletion_is_not_reported_witness :
  (closeButtonCallback sampleEnv sampleRow 1 sampleWorld).1 = Ret tt.
Proof.
  apply (failed_deletion_is_not_reported sampleEnv sampleRow 1 sampleWorld
           sampleChannel (transcriptPath sampleEnv sampleChannel)
           (makeTranscript sampleEnv sampleChannel sampleWorld).2).
  - reflexivity.
  - vm_compute. reflexivity.
Defined.

(** A member of staff closes ticket 1 by the command. *)
Lemma handlers_act_on_one_ticket_witness :
  let w' := (interactionCreate sampleEnv
               (ChatInputCommand (js "close") sampleUser (Some sampleStaff) None
                  sampleChannel) sampleWorld).2 in
  length (db w') = 1%nat
  ∧ ∃ new, timers w' = timers sampleWorld ++ new
           ∧ Forall (closeTaskOf sampleRow) new.
Proof.
  intros w'.
  destruct (handlers_act_on_one_ticket sampleEnv
              (ChatInputCommand (js "close") sampleUser (Some sampleStaff) None
                 sampleChannel) sampleWorld sampleRow) as (_ & Hlen & Hnew).
  - reflexivity.
  - reflexivity.
  - split; [exact Hlen|exact Hnew].
Defined.

(** A member of staff runs [/claim] in the channel of ticket 1. *)
Lemma interactions_delete_no_channel_witness :
  cacheGrows sampleWorld
    (interactionCreate sampleEnv
       (ChatInputCommand (js "claim") sampleUser (Some sampleStaff) None
          sampleChannel) sampleWorld).2.
Proof.
  apply (interactions_delete_no_channel sampleEnv
           (ChatInputCommand (js "claim") sampleUser (Some sampleStaff) None
              sampleChannel) sampleWorld).
  reflexivity.
Defined.
